(** * usb_midi_host_example.c: a shallow embedding

    The firmware runs two cores.  Core 0 polls the USB host stack, whose
    callbacks ([tuh_midi_mount_cb], [tuh_midi_umount_cb], [tuh_midi_rx_cb])
    maintain [midi_dev_addr] and copy received MIDI bytes into [out_buf];
    it also runs [send_next_note].  Core 1 waits on [ws_semaphore], which
    the word-clock interrupt [ws_callback] releases every 32nd edge, and
    then clocks [out_buf] out over SPI.

    C integers are represented by [Z] with the conversions written out,
    arrays by lists, and the global and function-static variables by one
    record.  The two sections guarded by [data_mutex] never overlap, so each
    is one atomic step of the interleaving.  Calls into the SDK and the USB
    driver are represented by what they return (an argument of the model)
    and by what they leave behind (a field of the record). *)

From stdpp Require Import base numbers list option.

Local Open Scope Z_scope.

(** ** Integer conversions *)

Definition uint8 (x : Z) : Z := x mod 256.
Definition uint32 (x : Z) : Z := x mod 2 ^ 32.
(** [int] is 32 bits wide on the RP2040. *)
Definition int32 (x : Z) : Z := (x + 2 ^ 31) mod 2 ^ 32 - 2 ^ 31.

(** ** Constants of the translation unit *)

Definition WS_PIN : Z := 5.
Definition SPI_BUFFER_LEN : Z := 64.
(** From the SDK's [enum gpio_irq_level]. *)
Definition GPIO_IRQ_EDGE_FALL : Z := 0x4.
Definition first_note : Z := 0x5b.
Definition last_note : Z := 0x5f.
Definition interval_ms : Z := 1000.

(** ** What the program prints *)

Inductive printed : Type :=
  | PrMounted (dev_addr in_ep num_cables_rx out_ep num_cables_tx : Z)
  | PrAlreadyConnected
  | PrUnmounted (dev_addr instance : Z)
  | PrUnusedUnmounted (dev_addr instance : Z)
  | PrMidiCallback
  | PrMessageTooLong (cable_num : Z)
  | PrBytesRead (cable_num bytes_read : Z) (values : list Z).

(** Calls made to the USB MIDI driver by [send_next_note]. *)
Inductive midi_call : Type :=
  | StreamFlush (dev_addr : Z)
  | StreamWrite (dev_addr cable : Z) (bytes : list Z) (nwritten : Z).

(** ** The SDK semaphore *)

Record semaphore : Type := Sem { permits : Z; max_permits : Z }.

Definition sem_init (initial_permits max : Z) : semaphore :=
  Sem initial_permits max.

(** A release beyond [max_permits] is dropped. *)
Definition sem_release (sem : semaphore) : semaphore :=
  if permits sem <? max_permits sem
  then Sem (permits sem + 1) (max_permits sem)
  else sem.

(** [sem_acquire_blocking] returns only once a permit is there; [None] is
    the caller still waiting. *)
Definition sem_acquire (sem : semaphore) : option semaphore :=
  if 0 <? permits sem
  then Some (Sem (permits sem - 1) (max_permits sem))
  else None.

(** ** Program state *)

Record state : Type := State {
  midi_dev_addr : Z;            (* static uint8_t, 0 = no device *)
  ws_semaphore : semaphore;
  out_buf : list Z;             (* uint8_t [SPI_BUFFER_LEN] *)
  in_buf : list Z;              (* uint8_t [SPI_BUFFER_LEN] *)
  message : list Z;             (* static uint8_t [6] of send_next_note *)
  start_ms : Z;                 (* static uint32_t of send_next_note *)
  div : Z;                      (* static int of ws_callback *)
  console : list printed;       (* newest first *)
  spi_mosi : list (list Z);     (* frames clocked out, newest first *)
  midi_calls : list midi_call;  (* newest first *)
  sem_releases : nat;           (* calls of sem_release by ws_callback *)
  frame_writes : nat            (* runs of the copy at lines 299-305 *)
}.

Definition set_midi_dev_addr (v : Z) (s : state) : state :=
  State v (ws_semaphore s) (out_buf s) (in_buf s) (message s) (start_ms s)
        (div s) (console s) (spi_mosi s) (midi_calls s) (sem_releases s)
        (frame_writes s).

Definition set_ws_semaphore (v : semaphore) (s : state) : state :=
  State (midi_dev_addr s) v (out_buf s) (in_buf s) (message s) (start_ms s)
        (div s) (console s) (spi_mosi s) (midi_calls s) (sem_releases s)
        (frame_writes s).

Definition set_out_buf (v : list Z) (s : state) : state :=
  State (midi_dev_addr s) (ws_semaphore s) v (in_buf s) (message s)
        (start_ms s) (div s) (console s) (spi_mosi s) (midi_calls s)
        (sem_releases s) (frame_writes s).

Definition set_in_buf (v : list Z) (s : state) : state :=
  State (midi_dev_addr s) (ws_semaphore s) (out_buf s) v (message s)
        (start_ms s) (div s) (console s) (spi_mosi s) (midi_calls s)
        (sem_releases s) (frame_writes s).

Definition set_message (v : list Z) (s : state) : state :=
  State (midi_dev_addr s) (ws_semaphore s) (out_buf s) (in_buf s) v
        (start_ms s) (div s) (console s) (spi_mosi s) (midi_calls s)
        (sem_releases s) (frame_writes s).

Definition set_start_ms (v : Z) (s : state) : state :=
  State (midi_dev_addr s) (ws_semaphore s) (out_buf s) (in_buf s) (message s)
        v (div s) (console s) (spi_mosi s) (midi_calls s) (sem_releases s)
        (frame_writes s).

Definition set_div (v : Z) (s : state) : state :=
  State (midi_dev_addr s) (ws_semaphore s) (out_buf s) (in_buf s) (message s)
        (start_ms s) v (console s) (spi_mosi s) (midi_calls s)
        (sem_releases s) (frame_writes s).

Definition printf (p : printed) (s : state) : state :=
  State (midi_dev_addr s) (ws_semaphore s) (out_buf s) (in_buf s) (message s)
        (start_ms s) (div s) (p :: console s) (spi_mosi s) (midi_calls s)
        (sem_releases s) (frame_writes s).

Definition clock_out (frame : list Z) (s : state) : state :=
  State (midi_dev_addr s) (ws_semaphore s) (out_buf s) (in_buf s) (message s)
        (start_ms s) (div s) (console s) (frame :: spi_mosi s) (midi_calls s)
        (sem_releases s) (frame_writes s).

Definition midi_call_made (c : midi_call) (s : state) : state :=
  State (midi_dev_addr s) (ws_semaphore s) (out_buf s) (in_buf s) (message s)
        (start_ms s) (div s) (console s) (spi_mosi s) (c :: midi_calls s)
        (sem_releases s) (frame_writes s).

Definition count_sem_release (s : state) : state :=
  State (midi_dev_addr s) (ws_semaphore s) (out_buf s) (in_buf s) (message s)
        (start_ms s) (div s) (console s) (spi_mosi s) (midi_calls s)
        (S (sem_releases s)) (frame_writes s).

Definition count_frame_write (s : state) : state :=
  State (midi_dev_addr s) (ws_semaphore s) (out_buf s) (in_buf s) (message s)
        (start_ms s) (div s) (console s) (spi_mosi s) (midi_calls s)
        (sem_releases s) (S (frame_writes s)).

(** Static storage is zero-initialised; [message] and [div] carry their
    initialisers. *)
Definition init_state : state :=
  {| midi_dev_addr := 0;
     ws_semaphore := Sem 0 0;
     out_buf := replicate (Z.to_nat SPI_BUFFER_LEN) 0;
     in_buf := replicate (Z.to_nat SPI_BUFFER_LEN) 0;
     message := [0x90; 0x5f; 0x00; 0x90; 0x5b; 0x7f];
     start_ms := 0;
     div := 32;
     console := [];
     spi_mosi := [];
     midi_calls := [];
     sem_releases := 0%nat;
     frame_writes := 0%nat |}.

(** ** The frame layout (comment above [out_buf]) *)

Definition fingerprint (frame : list Z) : list Z := take 2 frame.
Definition payload_length (frame : list Z) : Z := frame !!! 2%nat.
Definition payload (frame : list Z) : list Z :=
  take (Z.to_nat (payload_length frame)) (drop 3 frame).

(** ** C library and SDK primitives *)

(** [memcpy (dst + off, src, n)].  Reading past [src] or writing past [dst]
    is undefined behaviour: [None]. *)
Definition memcpy (dst : list Z) (off : nat) (src : list Z) (n : nat)
  : option (list Z) :=
  if decide (n ≤ length src ∧ off + n ≤ length dst)%nat
  then Some (take off dst ++ take n src ++ drop (off + n) dst)
  else None.

(** The loop [for (idx = 0; idx < n; idx++) ... src[idx]]. *)
Definition read_bytes (src : list Z) (n : nat) : option (list Z) :=
  if decide (n ≤ length src)%nat then Some (take n src) else None.

(** [spi_write_read_blocking (SPI_PORT, out_buf, in_buf, len)]: [len] bytes
    of [out_buf] go out on MOSI while the [len] bytes [miso] arriving from
    the peer are stored into [in_buf]. *)
Definition spi_write_read_blocking (len : nat) (miso : list Z) (s : state)
  : state :=
  set_in_buf (take len miso ++ drop len (in_buf s))
             (clock_out (take len (out_buf s)) s).

(** ** ws_callback (lines 131-140) *)

Definition ws_callback (gpio events : Z) (s : state) : state :=
  let s1 := set_div (int32 (div s - 1)) s in
  if div s1 <=? 0
  then count_sem_release
         (set_ws_semaphore (sem_release (ws_semaphore s1)) (set_div 32 s1))
  else s1.

(** ** core1_entry (lines 142-199) *)

(** Lines 174-183: what core 1 sets up before it enters its loop. *)
Definition core1_setup (s : state) : state :=
  let s1 := set_ws_semaphore (sem_init 0 1) s in
  let s2 := set_out_buf (<[0%nat := 0xCA]> (out_buf s1)) s1 in
  set_out_buf (<[1%nat := 0xFE]> (out_buf s2)) s2.

(** Lines 189-196: the section under [data_mutex].  The chip-select line
    is lowered and raised around the exchange; it carries no data. *)
Definition core1_transfer (miso : list Z) (s : state) : state :=
  let s1 := spi_write_read_blocking (Z.to_nat SPI_BUFFER_LEN) miso s in
  set_out_buf (<[2%nat := 0x00]> (out_buf s1)) s1.

(** Lines 184-197: one turn of the loop.  Without a permit the core stays
    inside [sem_acquire_blocking] and nothing changes. *)
Definition core1_iteration (miso : list Z) (s : state) : state :=
  match sem_acquire (ws_semaphore s) with
  | Some sem => core1_transfer miso (set_ws_semaphore sem s)
  | None => s
  end.

(** ** send_next_note (lines 89-129) *)

(** What the driver and the board answer during one call. *)
Record note_env : Type := NoteEnv {
  tx_cables_guard : Z;  (* tuh_midih_get_num_tx_cables at line 102 *)
  now_ms : Z;           (* board_millis at line 108 *)
  tx_cables : Z;        (* tuh_midih_get_num_tx_cables at line 115 *)
  nwritten : Z          (* tuh_midi_stream_write at line 117 *)
}.

(** Lines 121-126. *)
Definition advance_notes (m : list Z) : list Z :=
  let m := <[1%nat := uint8 (m !!! 1%nat + 1)]> m in
  let m := <[4%nat := uint8 (m !!! 4%nat + 1)]> m in
  let m := if m !!! 1%nat >? last_note then <[1%nat := first_note]> m else m in
  if m !!! 4%nat >? last_note then <[4%nat := first_note]> m else m.

Definition send_next_note (connected : bool) (e : note_env) (s : state)
  : state :=
  if negb connected || (tx_cables_guard e <? 1) then s
  else
    let s := midi_call_made (StreamFlush (midi_dev_addr s)) s in
    if uint32 (now_ms e - start_ms s) <? interval_ms then s
    else
      let s := set_start_ms (uint32 (start_ms s + interval_ms)) s in
      let cable := uint8 (tx_cables e - 1) in
      let nw := uint32 (0 + nwritten e) in
      let s :=
        midi_call_made (StreamWrite (midi_dev_addr s) cable (message s) nw) s in
      let s :=
        if negb (nw =? 0) then set_message (advance_notes (message s)) s
        else s in
      midi_call_made (StreamFlush (midi_dev_addr s)) s.

(** Lines 242-244 of [main]: [configured] is what [tuh_midi_configured]
    answers. *)
Definition main_iteration (configured : bool) (e : note_env) (s : state)
  : state :=
  let connected := negb (midi_dev_addr s =? 0) && configured in
  send_next_note connected e s.

(** ** The TinyUSB callbacks (lines 257-315) *)

Definition tuh_midi_mount_cb
    (dev_addr in_ep out_ep num_cables_rx num_cables_tx : Z) (s : state)
  : state :=
  let s := printf (PrMounted dev_addr (Z.land in_ep 0xf) num_cables_rx
                             (Z.land out_ep 0xf) num_cables_tx) s in
  if midi_dev_addr s =? 0
  then set_midi_dev_addr dev_addr s
  else printf PrAlreadyConnected s.

Definition tuh_midi_umount_cb (dev_addr instance : Z) (s : state) : state :=
  if dev_addr =? midi_dev_addr s
  then printf (PrUnmounted dev_addr instance) (set_midi_dev_addr 0 s)
  else printf (PrUnusedUnmounted dev_addr instance) s.

(** Lines 296-306: hand [bytes_read] bytes of [buffer] to the SPI frame, or
    report that they do not fit.  [buffer] stands for the local array of
    the callback, which has 48 bytes there (line 289); copying more bytes
    than the list given holds reads past its end. *)
Definition rx_write (cable_num : Z) (buffer : list Z) (bytes_read : Z)
    (s : state) : option state :=
  if bytes_read >? SPI_BUFFER_LEN - 3
  then Some (printf (PrMessageTooLong cable_num) s)
  else
    let s1 := set_out_buf (<[2%nat := uint8 bytes_read]> (out_buf s)) s in
    ob ← memcpy (out_buf s1) 3 buffer (Z.to_nat bytes_read);
    Some (count_frame_write (set_out_buf ob s1)).

(** What one call of [tuh_midi_stream_read] at line 291 leaves behind. *)
Record stream_read : Type := StreamRead {
  rd_cable_num : Z;       (* *p_cable_num *)
  rd_buffer : list Z;     (* the local array [buffer] after the call *)
  rd_bytes_read : Z       (* the value returned *)
}.

(** Lines 290-312.  [reads] lists the successive answers of the driver; the
    call after the last of them finds the stream empty and returns 0. *)
Fixpoint rx_loop (reads : list stream_read) (s : state) : option state :=
  match reads with
  | [] => Some s
  | r :: rest =>
      if rd_bytes_read r =? 0 then Some s
      else
        s1 ← rx_write (rd_cable_num r) (rd_buffer r) (rd_bytes_read r) s;
        values ← read_bytes (rd_buffer r) (Z.to_nat (rd_bytes_read r));
        rx_loop rest
          (printf (PrBytesRead (rd_cable_num r) (rd_bytes_read r) values) s1)
  end.

Definition tuh_midi_rx_cb (dev_addr num_packets : Z)
    (reads : list stream_read) (s : state) : option state :=
  let s := printf PrMidiCallback s in
  if midi_dev_addr s =? dev_addr
  then if negb (num_packets =? 0) then rx_loop reads s else Some s
  else Some s.

(** ** Interleavings *)

Inductive event : Type :=
  | WsEdge (gpio events : Z)
  | Core1Iteration (miso : list Z)
  | Mount (dev_addr in_ep out_ep num_cables_rx num_cables_tx : Z)
  | Umount (dev_addr instance : Z)
  | RxData (dev_addr num_packets : Z) (reads : list stream_read)
  | MainLoop (configured : bool) (e : note_env).

Definition step (ev : event) (s : state) : option state :=
  match ev with
  | WsEdge gpio events => Some (ws_callback gpio events s)
  | Core1Iteration miso => Some (core1_iteration miso s)
  | Mount a i o rx tx => Some (tuh_midi_mount_cb a i o rx tx s)
  | Umount a inst => Some (tuh_midi_umount_cb a inst s)
  | RxData a n reads => tuh_midi_rx_cb a n reads s
  | MainLoop configured e => Some (main_iteration configured e s)
  end.

Fixpoint run (evs : list event) (s : state) : option state :=
  match evs with
  | [] => Some s
  | ev :: rest => s' ← step ev s; run rest s'
  end.

(** [n] consecutive word-clock edges. *)
Fixpoint edges (n : nat) (s : state) : state :=
  match n with
  | O => s
  | S k => ws_callback WS_PIN GPIO_IRQ_EDGE_FALL (edges k s)
  end.

(** ** Notions used in the statements *)

(** The frame that the copy branch of [rx_write] leaves in [out_buf]. *)
Definition stored_frame (ob : list Z) (n : Z) (buffer : list Z) : list Z :=
  take 2 ob ++ n :: take (Z.to_nat n) buffer ++ drop (3 + Z.to_nat n) ob.

Definition is_too_long (p : printed) : bool :=
  match p with PrMessageTooLong _ => true | _ => false end.

(** How often "Message too long" has been printed. *)
Definition too_long_reports (s : state) : nat :=
  length (List.filter is_too_long (console s)).

Definition same_header (s0 s : state) : Prop :=
  length (out_buf s) = length (out_buf s0) ∧
  fingerprint (out_buf s) = fingerprint (out_buf s0).

(** No copy into the frame happened on the way from [s0] to [s], and the
    frame was touched at most by core 1 clearing its length byte. *)
Definition quiet (s0 s : state) : Prop :=
  (frame_writes s0 ≤ frame_writes s)%nat ∧
  (frame_writes s = frame_writes s0 →
   out_buf s0 !! 2%nat = Some 0 → out_buf s !! 2%nat = Some 0).

(** [sizeof(buffer)] at line 289. *)
Definition RX_BUFFER_SIZE : Z := 48.

(** Modelled from the spec: [tuh_midi_stream_read] is part of the USB MIDI
    host driver (usb_midi_host.c), outside this translation unit.  It is
    called with the local array and [sizeof(buffer)]; the contract taken
    here is that of a bounded read: the array keeps its [bufsize] bytes and
    the value returned, the number of bytes stored, does not exceed
    [bufsize]. *)
Definition stream_read_fits (bufsize : Z) (r : stream_read) : Prop :=
  length (rd_buffer r) = Z.to_nat bufsize ∧ 0 ≤ rd_bytes_read r ≤ bufsize.

Definition driver_respects_buffer (ev : event) : Prop :=
  match ev with
  | RxData _ _ reads => Forall (stream_read_fits RX_BUFFER_SIZE) reads
  | _ => True
  end.

(** The length byte is a byte count that the receive buffer can hold. *)
Definition length_byte_bounded (s : state) : Prop :=
  ∃ n, out_buf s !! 2%nat = Some n ∧ 0 ≤ n ≤ RX_BUFFER_SIZE.

Definition rx_safe (s0 s : state) : Prop :=
  length (out_buf s) = Z.to_nat SPI_BUFFER_LEN ∧
  too_long_reports s = too_long_reports s0 ∧
  (length_byte_bounded s0 → length_byte_bounded s).

(** The guards of [send_next_note] that lead to line 117. *)
Definition write_attempted (connected : bool) (e : note_env) (s : state)
  : Prop :=
  connected = true ∧ 1 ≤ tx_cables_guard e ∧
  interval_ms ≤ uint32 (now_ms e - start_ms s).

(** A call of [send_next_note] that gets bytes accepted by the driver. *)
Definition note_sent (e : note_env) (s : state) : Prop :=
  write_attempted true e s ∧ uint32 (0 + nwritten e) ≠ 0.

(** Both predicates are decidable, so they can be checked by computation on
    a given trace. *)
#[global] Instance stream_read_fits_dec bufsize r :
  Decision (stream_read_fits bufsize r).
Proof. unfold stream_read_fits. apply _. Defined.

#[global] Instance driver_respects_buffer_dec ev :
  Decision (driver_respects_buffer ev).
Proof. destruct ev; cbn [driver_respects_buffer]; apply _. Defined.

(** ** Sample inputs *)

(** Core 1 has set up and one block of 32 word-clock edges has passed. *)
Definition ready_state : state := edges 32 (core1_setup init_state).

(** A note-on and the rest of the 48-byte receive buffer. *)
Definition note_on_bytes : list Z := [0x90; 0x3c; 0x7f].
Definition note_off_bytes : list Z := [0x80; 0x3c].
Definition buffer_padding (used : nat) : list Z := replicate (48 - used) 0.
Definition idle_miso : list Z := replicate 64 0.

Definition sample_read : stream_read :=
  StreamRead 0 (note_on_bytes ++ buffer_padding 3) 3.
Definition sample_read_off : stream_read :=
  StreamRead 0 (note_off_bytes ++ buffer_padding 2) 2.

(** A device is mounted and sends a note-on and a note-off, a block of 32
    word-clock edges passes, and the frame goes out. *)
Definition sample_trace : list event :=
  [ Mount 1 0x81 0x01 1 1; RxData 1 2 [sample_read; sample_read_off] ]
  ++ replicate 32 (WsEdge WS_PIN GPIO_IRQ_EDGE_FALL)
  ++ [ Core1Iteration idle_miso;
       MainLoop true (NoteEnv 1 1000 1 6);
       Umount 1 0 ].

(** Nothing is copied into the frame: the data comes from a device that is
    not the mounted one. *)
Definition idle_trace : list event :=
  [ Mount 1 0x81 0x01 1 1;
    WsEdge WS_PIN GPIO_IRQ_EDGE_FALL;
    RxData 2 1 [sample_read];
    MainLoop true (NoteEnv 1 1000 1 6) ].

Definition idle_trace_end : state :=
  main_iteration true (NoteEnv 1 1000 1 6)
    (printf PrMidiCallback
       (ws_callback WS_PIN GPIO_IRQ_EDGE_FALL
          (tuh_midi_mount_cb 1 0x81 0x01 1 1
             (core1_iteration idle_miso ready_state)))).

(** The driver accepts all six bytes, [k] seconds after start. *)
Definition accepted_at (k : Z) : note_env := NoteEnv 1 (1000 * k) 1 6.
(** The driver accepts nothing. *)
Definition refused_at (k : Z) : note_env := NoteEnv 1 (1000 * k) 1 0.

Abbreviation after_note_1 :=
  (send_next_note true (accepted_at 1) init_state).
Abbreviation after_note_2 :=
  (send_next_note true (accepted_at 2) after_note_1).
Abbreviation after_note_3 :=
  (send_next_note true (accepted_at 3) after_note_2).
Abbreviation after_note_4 :=
  (send_next_note true (accepted_at 4) after_note_3).
Abbreviation after_note_5 :=
  (send_next_note true (accepted_at 5) after_note_4).

(** ** blink_led (lines 70-87) *)

Definition NO_LED_GPIO : Z := 255.
Definition LED_GPIO : Z := 25.

Definition int64 (x : Z) : Z := (x + 2 ^ 63) mod 2 ^ 64 - 2 ^ 63.

(** The SDK's [absolute_time_diff_us (from, to)]: the microseconds since
    boot of [to] minus those of [from], as an [int64_t]. *)
Definition absolute_time_diff_us (from to : Z) : Z := int64 (to - from).

(** The statics of [blink_led] and what it writes to the LED pin. *)
Record led : Type := Led {
  previous_timestamp : Z;   (* static absolute_time_t, microseconds *)
  led_state : bool;         (* static bool *)
  led_pin : list bool       (* levels given to gpio_put, newest first *)
}.

Definition led_init : led := Led 0 false [].

(** [now] is what [get_absolute_time] answers. *)
Definition blink_led (now : Z) (l : led) : led :=
  if NO_LED_GPIO =? LED_GPIO then l
  else
    let diff := absolute_time_diff_us (previous_timestamp l) now in
    if diff >? 1000000
    then Led now (negb (led_state l)) (led_state l :: led_pin l)
    else l.

(** [blink_led] called at each of the given times, first to last. *)
Definition blink_at (times : list Z) (l : led) : led :=
  foldl (λ l now, blink_led now l) l times.

(** ** Notions used in the further statements *)

Definition is_edge (ev : event) : bool :=
  match ev with WsEdge _ _ => true | _ => false end.

(** The number of word-clock edges in a trace. *)
Definition edge_count (evs : list event) : nat :=
  length (List.filter is_edge evs).

Definition is_stream_write (c : midi_call) : bool :=
  match c with StreamWrite _ _ _ _ => true | _ => false end.

(** How often [tuh_midi_stream_write] has been called. *)
Definition stream_writes (s : state) : nat :=
  length (List.filter is_stream_write (midi_calls s)).

(** The note messages the sequencer passes through, starting with the
    initial one. *)
Definition note_cycle : list (list Z) :=
  [ [0x90; 0x5f; 0x00; 0x90; 0x5b; 0x7f];
    [0x90; 0x5b; 0x00; 0x90; 0x5c; 0x7f];
    [0x90; 0x5c; 0x00; 0x90; 0x5d; 0x7f];
    [0x90; 0x5d; 0x00; 0x90; 0x5e; 0x7f];
    [0x90; 0x5e; 0x00; 0x90; 0x5f; 0x7f] ].

(** The event leaves the recorded device [A] where it is. *)
Definition keeps_device (A : Z) (ev : event) : Prop :=
  match ev with
  | Umount a _ => a ≠ A
  | _ => True
  end.

(** The event brings no data from device [A]. *)
Definition no_data_from (A : Z) (ev : event) : Prop :=
  match ev with
  | RxData a _ _ => a ≠ A
  | _ => True
  end.

Definition is_mount (ev : event) : bool :=
  match ev with Mount _ _ _ _ _ => true | _ => false end.

(** Every value returned by the stream read is a [uint32_t]. *)
Definition reads_unsigned (ev : event) : Prop :=
  match ev with
  | RxData _ _ reads => Forall (λ r, 0 ≤ rd_bytes_read r) reads
  | _ => True
  end.

(** A frame as the peer on the SPI link expects it: full size, fingerprint
    first, and a length that stays inside the frame. *)
Definition well_formed_frame (frame : list Z) : Prop :=
  length frame = Z.to_nat SPI_BUFFER_LEN ∧
  fingerprint frame = [0xCA; 0xFE] ∧
  0 ≤ payload_length frame ≤ SPI_BUFFER_LEN - 3.

#[global] Instance keeps_device_dec A ev : Decision (keeps_device A ev).
Proof. destruct ev; cbn [keeps_device]; apply _. Defined.

#[global] Instance no_data_from_dec A ev : Decision (no_data_from A ev).
Proof. destruct ev; cbn [no_data_from]; apply _. Defined.

#[global] Instance reads_unsigned_dec ev : Decision (reads_unsigned ev).
Proof. destruct ev; cbn [reads_unsigned]; apply _. Defined.

(** The levels written to the LED pin, oldest first, are off, on, off, ...
    and [led_state] holds the level to be written next. *)
Definition levels_alternate (l : led) : Prop :=
  led_state l = Nat.odd (length (led_pin l)) ∧
  ∀ i v, reverse (led_pin l) !! i = Some v → v = Nat.odd i.

(** ** Further sample inputs *)

Definition empty_read : stream_read := StreamRead 0 (buffer_padding 0) 0.

(** Device 1 is mounted. *)
Definition mounted_state : state :=
  tuh_midi_mount_cb 1 0x81 0x01 1 1 (core1_setup init_state).

(** A second device comes, sends data and goes, while device 1 stays. *)
Definition other_device_trace : list event :=
  [ Mount 2 0x82 0x02 1 1;
    RxData 2 1 [sample_read];
    WsEdge WS_PIN GPIO_IRQ_EDGE_FALL;
    MainLoop true (NoteEnv 1 1000 1 6);
    Umount 2 0 ].

Definition other_device_trace_end : state :=
  Eval vm_compute in default init_state (run other_device_trace mounted_state).

(** No device is mounted; a stray callback and an unmount still arrive. *)
Definition no_device_trace : list event :=
  [ WsEdge WS_PIN GPIO_IRQ_EDGE_FALL;
    RxData 3 1 [sample_read];
    MainLoop true (NoteEnv 1 1000 1 6);
    Umount 3 0;
    Core1Iteration idle_miso ].

Definition sample_trace_final : state :=
  Eval vm_compute in
    default init_state (run sample_trace (core1_setup init_state)).

Definition idle_transfer_end : state :=
  Eval vm_compute in
    default init_state (run idle_trace (core1_transfer idle_miso ready_state)).

(** The millisecond counter is 500 ms short of wrapping when the interval
    starts, and has wrapped to 500 when [send_next_note] is called. *)
Definition rollover_state : state := set_start_ms (2 ^ 32 - 500) init_state.
Definition rollover_env : note_env := NoteEnv 1 500 1 6.

(** Times of five calls of [blink_led], in microseconds. *)
Definition blink_times : list Z :=
  [500000; 1500000; 2000000; 2600000; 4000000].

(** * Proofs *)

(** ** The model on sample inputs *)

Example sample_trace_frame :
  spi_mosi <$> run sample_trace (core1_setup init_state)
  = Some [[0xCA; 0xFE; 2; 0x80; 0x3c; 0x7f] ++ replicate 58 0].
Proof. vm_compute. reflexivity. Qed.

Example sample_trace_end :
  (λ s, (midi_dev_addr s, out_buf s !! 2%nat, div s, permits (ws_semaphore s),
         sem_releases s, frame_writes s, message s))
    <$> run sample_trace (core1_setup init_state)
  = Some (0, Some 0, 32, 0, 1%nat, 2%nat, [0x90; 0x5b; 0x00; 0x90; 0x5c; 0x7f]).
Proof. vm_compute. reflexivity. Qed.

Example core1_waits_without_permit :
  core1_iteration idle_miso (core1_setup init_state) = core1_setup init_state.
Proof. vm_compute. reflexivity. Qed.

Example rx_of_49_bytes_overruns_buffer :
  rx_write 0 (buffer_padding 0) 49 ready_state = None.
Proof. vm_compute. reflexivity. Qed.

(** ** Writing into the frame *)

Lemma memcpy_in_bounds dst off src n :
  (n ≤ length src)%nat → (off + n ≤ length dst)%nat →
  memcpy dst off src n
  = Some (take off dst ++ take n src ++ drop (off + n) dst).
Proof.
  intros Hsrc Hdst. unfold memcpy.
  case_decide as Hd; [done | tauto].
Qed.

Lemma memcpy_inv dst off src n r :
  memcpy dst off src n = Some r →
  (n ≤ length src)%nat ∧ (off + n ≤ length dst)%nat ∧
  r = take off dst ++ take n src ++ drop (off + n) dst.
Proof.
  unfold memcpy. case_decide as Hd; [|done].
  intros [= <-]. tauto.
Qed.

(** A copy within bounds does not change the size of the destination. *)
Lemma memcpy_length (dst src : list Z) (off n : nat) :
  (n ≤ length src)%nat → (off + n ≤ length dst)%nat →
  length (take off dst ++ take n src ++ drop (off + n) dst) = length dst.
Proof.
  intros Hsrc Hdst. rewrite !length_app, !length_take, length_drop. lia.
Qed.

Lemma uint8_small n : 0 ≤ n < 256 → uint8 n = n.
Proof. intros H. unfold uint8. by apply Z.mod_small. Qed.

Lemma take3_insert2 (l : list Z) x :
  (3 ≤ length l)%nat → take 3 (<[2%nat:=x]> l) = take 2 l ++ [x].
Proof.
  destruct l as [|a [|b [|c l]]]; cbn; intros; try lia; done.
Qed.

Lemma rx_write_fits s cable buffer n :
  length (out_buf s) = Z.to_nat SPI_BUFFER_LEN →
  0 ≤ n ≤ SPI_BUFFER_LEN - 3 →
  (Z.to_nat n ≤ length buffer)%nat →
  rx_write cable buffer n s
  = Some (count_frame_write
            (set_out_buf (stored_frame (out_buf s) n buffer) s)).
Proof.
  unfold SPI_BUFFER_LEN. intros Hlen Hn Hbuf.
  unfold rx_write, SPI_BUFFER_LEN.
  destruct (Z.gtb_spec n (64 - 3)) as [Hgt|_]; [lia|].
  cbn [out_buf set_out_buf].
  rewrite uint8_small by lia.
  rewrite memcpy_in_bounds by (rewrite ?length_insert; lia).
  rewrite take3_insert2, drop_insert_lt, <- app_assoc by lia.
  reflexivity.
Qed.

Lemma rx_write_too_long s cable buffer n :
  n > SPI_BUFFER_LEN - 3 →
  rx_write cable buffer n s = Some (printf (PrMessageTooLong cable) s).
Proof.
  intros Hn. unfold rx_write.
  destruct (Z.gtb_spec n (SPI_BUFFER_LEN - 3)) as [_|Hle]; [done | lia].
Qed.

Section stored.
Context (ob buffer : list Z) (n : Z).
Hypothesis Hob : length ob = Z.to_nat SPI_BUFFER_LEN.
Hypothesis Hn : 0 ≤ n ≤ SPI_BUFFER_LEN - 3.
Hypothesis Hbuf : (Z.to_nat n ≤ length buffer)%nat.

Lemma stored_frame_length :
  length (stored_frame ob n buffer) = Z.to_nat SPI_BUFFER_LEN.
Proof.
  unfold stored_frame, SPI_BUFFER_LEN in *.
  rewrite length_app; cbn [length]; rewrite length_app.
  rewrite !length_take, length_drop. lia.
Qed.

Lemma stored_frame_fingerprint :
  fingerprint (stored_frame ob n buffer) = fingerprint ob.
Proof.
  unfold fingerprint, stored_frame, SPI_BUFFER_LEN in *.
  rewrite take_app_length'; [done|]. rewrite length_take. lia.
Qed.

Lemma stored_frame_lookup_length :
  stored_frame ob n buffer !! 2%nat = Some n.
Proof.
  unfold stored_frame, SPI_BUFFER_LEN in *.
  rewrite lookup_app_r by (rewrite length_take; lia).
  rewrite length_take. by replace (2 - 2 `min` length ob)%nat with 0%nat by lia.
Qed.

Lemma stored_frame_payload_length :
  payload_length (stored_frame ob n buffer) = n.
Proof.
  unfold payload_length. apply list_lookup_total_correct.
  apply stored_frame_lookup_length.
Qed.

Lemma stored_frame_region :
  take (Z.to_nat n) (drop 3 (stored_frame ob n buffer))
  = take (Z.to_nat n) buffer.
Proof.
  unfold stored_frame, SPI_BUFFER_LEN in *.
  change (take 2 ob ++ n :: ?l) with (take 2 ob ++ [n] ++ l).
  rewrite app_assoc.
  rewrite drop_app_length' by (rewrite length_app, length_take; cbn [length]; lia).
  rewrite take_app_length' by (rewrite length_take; lia).
  done.
Qed.

Lemma stored_frame_payload :
  payload (stored_frame ob n buffer) = take (Z.to_nat n) buffer.
Proof.
  unfold payload. rewrite stored_frame_payload_length.
  apply stored_frame_region.
Qed.

Lemma stored_frame_rest :
  drop (3 + Z.to_nat n) (stored_frame ob n buffer)
  = drop (3 + Z.to_nat n) ob.
Proof.
  unfold stored_frame, SPI_BUFFER_LEN in *.
  change (take 2 ob ++ n :: ?l) with (take 2 ob ++ [n] ++ l).
  rewrite !app_assoc.
  rewrite drop_app_length'; [done|].
  rewrite !length_app, !length_take. cbn [length]. lia.
Qed.

Lemma stored_frame_head :
  take (3 + Z.to_nat n) (stored_frame ob n buffer)
  = take 2 ob ++ n :: take (Z.to_nat n) buffer.
Proof.
  unfold stored_frame, SPI_BUFFER_LEN in *.
  change (take 2 ob ++ n :: ?l) with (take 2 ob ++ [n] ++ l).
  rewrite !app_assoc.
  rewrite take_app_length'; [done|].
  rewrite !length_app, !length_take. cbn [length]. lia.
Qed.

Lemma stored_frame_tail (m : nat) :
  (m ≤ Z.to_nat n)%nat →
  drop (3 + m) (stored_frame ob n buffer)
  = drop m (take (Z.to_nat n) buffer) ++ drop (3 + Z.to_nat n) ob.
Proof.
  intros Hm. unfold stored_frame, SPI_BUFFER_LEN in *.
  change (take 2 ob ++ n :: ?l) with (take 2 ob ++ [n] ++ l).
  rewrite (app_assoc (take 2 ob)), <- drop_drop.
  rewrite drop_app_length' by (rewrite length_app, length_take; cbn [length]; lia).
  apply drop_app_le. rewrite length_take. lia.
Qed.
End stored.

Lemma core1_iteration_permit miso s :
  0 < permits (ws_semaphore s) →
  core1_iteration miso s
  = core1_transfer miso
      (set_ws_semaphore
         (Sem (permits (ws_semaphore s) - 1) (max_permits (ws_semaphore s))) s).
Proof.
  intros Hp. unfold core1_iteration, sem_acquire.
  destruct (Z.ltb_spec 0 (permits (ws_semaphore s))); [done | lia].
Qed.

Lemma core1_iteration_blocked miso s :
  permits (ws_semaphore s) ≤ 0 → core1_iteration miso s = s.
Proof.
  intros Hp. unfold core1_iteration, sem_acquire.
  destruct (Z.ltb_spec 0 (permits (ws_semaphore s))); [lia | done].
Qed.

(** C1.  Let a payload [P] sit at the start of the receive buffer, which has
    [RX_BUFFER_SIZE = 48] bytes, so that [P] has at most 48 bytes, fewer
    than the [SPI_BUFFER_LEN - 3 = 61] a frame can carry.  Writing it
    ([rx_write] with [bytes_read = length P]) and then letting core 1 run
    one turn of its loop clocks out one more frame, of 64 bytes, whose byte
    2 is [length P] and whose bytes from offset 3 on are [P]. *)
Theorem write_then_transfer_sends_payload
    (s : state) (cable_num : Z) (P rest miso : list Z) :
  length (out_buf s) = Z.to_nat SPI_BUFFER_LEN →
  length (P ++ rest) = Z.to_nat RX_BUFFER_SIZE →
  0 < permits (ws_semaphore s) →
  Z.of_nat (length P) ≤ RX_BUFFER_SIZE ∧
  RX_BUFFER_SIZE < SPI_BUFFER_LEN - 3 ∧
  ∃ s1 frame,
    rx_write cable_num (P ++ rest) (Z.of_nat (length P)) s = Some s1 ∧
    spi_mosi (core1_iteration miso s1) = frame :: spi_mosi s ∧
    length frame = Z.to_nat SPI_BUFFER_LEN ∧
    frame !! 2%nat = Some (Z.of_nat (length P)) ∧
    take (length P) (drop 3 frame) = P ∧
    payload_length frame = Z.of_nat (length P) ∧
    payload frame = P.
Proof.
  intros Hob Hbuf Hsem.
  assert (HP : Z.of_nat (length P) ≤ RX_BUFFER_SIZE)
    by (rewrite length_app in Hbuf; unfold RX_BUFFER_SIZE in *; lia).
  split; [done|]. split; [done|].
  assert (Hfit : (Z.to_nat (Z.of_nat (length P)) ≤ length (P ++ rest))%nat)
    by (rewrite length_app; lia).
  assert (Hn : 0 ≤ Z.of_nat (length P) ≤ SPI_BUFFER_LEN - 3)
    by (unfold RX_BUFFER_SIZE, SPI_BUFFER_LEN in *; lia).
  assert (HPtake : take (Z.to_nat (Z.of_nat (length P))) (P ++ rest) = P)
    by (rewrite Nat2Z.id; by apply take_app_length').
  eexists _, (stored_frame (out_buf s) (Z.of_nat (length P)) (P ++ rest)).
  split; [by apply rx_write_fits|].
  split.
  { rewrite core1_iteration_permit by done. cbn.
    f_equal. apply take_ge. rewrite stored_frame_length by done. done. }
  split; [by apply stored_frame_length|].
  split; [by apply stored_frame_lookup_length|].
  split.
  { rewrite <- (Nat2Z.id (length P)) at 1.
    rewrite stored_frame_region by done. done. }
  split; [by apply stored_frame_payload_length|].
  rewrite stored_frame_payload by done. done.
Qed.

Lemma write_then_transfer_sends_payload_witness :
  (length (out_buf ready_state) = Z.to_nat SPI_BUFFER_LEN ∧
   length (note_on_bytes ++ buffer_padding 3) = Z.to_nat RX_BUFFER_SIZE ∧
   0 < permits (ws_semaphore ready_state)) ∧
  Z.of_nat (length note_on_bytes) ≤ RX_BUFFER_SIZE ∧
  RX_BUFFER_SIZE < SPI_BUFFER_LEN - 3 ∧
  ∃ s1 frame,
    rx_write 0 (note_on_bytes ++ buffer_padding 3)
             (Z.of_nat (length note_on_bytes)) ready_state = Some s1 ∧
    spi_mosi (core1_iteration idle_miso s1) = frame :: spi_mosi ready_state ∧
    length frame = Z.to_nat SPI_BUFFER_LEN ∧
    frame !! 2%nat = Some (Z.of_nat (length note_on_bytes)) ∧
    take (length note_on_bytes) (drop 3 frame) = note_on_bytes ∧
    payload_length frame = Z.of_nat (length note_on_bytes) ∧
    payload frame = note_on_bytes.
Proof.
  assert (H1 : length (out_buf ready_state) = Z.to_nat SPI_BUFFER_LEN)
    by (vm_compute; reflexivity).
  assert (H2 : length (note_on_bytes ++ buffer_padding 3)
               = Z.to_nat RX_BUFFER_SIZE) by (vm_compute; reflexivity).
  assert (H3 : 0 < permits (ws_semaphore ready_state))
    by (vm_compute; reflexivity).
  split; [exact (conj H1 (conj H2 H3))|].
  exact (write_then_transfer_sends_payload
           ready_state 0 note_on_bytes (buffer_padding 3) idle_miso H1 H2 H3).
Defined.

(** A payload of 49 bytes is within what a frame can carry, but the receive
    buffer holds 48: the copy of 49 bytes reads past its end, and no frame
    with that payload comes about. *)
Lemma write_then_transfer_sends_payload_counterexample :
  49 ≤ SPI_BUFFER_LEN - 3 ∧
  length (buffer_padding 0) = Z.to_nat RX_BUFFER_SIZE ∧
  ¬ ∃ s1, rx_write 0 (buffer_padding 0) 49 ready_state = Some s1.
Proof.
  split; [vm_compute; discriminate|]. split; [reflexivity|].
  intros [s1 Hw]. vm_compute in Hw. discriminate Hw.
Qed.

(** C2.  When [bytes_read] exceeds [SPI_BUFFER_LEN - 3], [rx_write] prints
    "Message too long", performs no copy, and leaves [out_buf] exactly as it
    was. *)
Theorem oversize_write_is_dropped
    (s : state) (cable_num : Z) (buffer : list Z) (bytes_read : Z) :
  bytes_read > SPI_BUFFER_LEN - 3 →
  ∃ s',
    rx_write cable_num buffer bytes_read s = Some s' ∧
    console s' = PrMessageTooLong cable_num :: console s ∧
    frame_writes s' = frame_writes s ∧
    out_buf s' = out_buf s.
Proof.
  intros Hn. eexists. split; [by apply rx_write_too_long|]. done.
Qed.

Lemma oversize_write_is_dropped_witness :
  62 > SPI_BUFFER_LEN - 3 ∧
  ∃ s',
    rx_write 0 (buffer_padding 0) 62 ready_state = Some s' ∧
    console s' = PrMessageTooLong 0 :: console ready_state ∧
    frame_writes s' = frame_writes ready_state ∧
    out_buf s' = out_buf ready_state.
Proof.
  assert (H : 62 > SPI_BUFFER_LEN - 3) by (vm_compute; reflexivity).
  split; [exact H|].
  exact (oversize_write_is_dropped ready_state 0 (buffer_padding 0) 62 H).
Defined.

Lemma stored_frame_overwrite ob n1 b1 n2 b2 :
  length ob = Z.to_nat SPI_BUFFER_LEN →
  0 ≤ n1 ≤ n2 → n2 ≤ SPI_BUFFER_LEN - 3 →
  (Z.to_nat n1 ≤ length b1)%nat →
  stored_frame (stored_frame ob n1 b1) n2 b2 = stored_frame ob n2 b2.
Proof.
  intros Hob Hn1 Hn2 Hb1.
  unfold stored_frame at 1 3.
  change (take 2 ?l) with (fingerprint l).
  rewrite stored_frame_fingerprint by (done || lia).
  do 3 f_equal.
  replace (3 + Z.to_nat n2)%nat
    with ((3 + Z.to_nat n1) + (Z.to_nat n2 - Z.to_nat n1))%nat by lia.
  rewrite <- (drop_drop (stored_frame _ _ _)), <- (drop_drop ob).
  rewrite stored_frame_rest by (done || lia). done.
Qed.

(** C8.  Two writes in a row from the 48-byte receive buffer, [P1] then
    [P2], leave a frame whose length byte is [length P2] and whose payload
    is [P2]: header and the first [length P2] payload bytes are those of the
    frame that writing [P2] alone produces.  The whole buffers agree when
    [P1] is not longer than [P2]; when it is longer, its bytes beyond
    [length P2] stay where the first write put them. *)
Theorem last_write_wins
    (s : state) (c1 c2 : Z) (P1 rest1 P2 rest2 : list Z) :
  length (out_buf s) = Z.to_nat SPI_BUFFER_LEN →
  length (P1 ++ rest1) = Z.to_nat RX_BUFFER_SIZE →
  length (P2 ++ rest2) = Z.to_nat RX_BUFFER_SIZE →
  ∃ s1 s12 s2,
    rx_write c1 (P1 ++ rest1) (Z.of_nat (length P1)) s = Some s1 ∧
    rx_write c2 (P2 ++ rest2) (Z.of_nat (length P2)) s1 = Some s12 ∧
    rx_write c2 (P2 ++ rest2) (Z.of_nat (length P2)) s = Some s2 ∧
    out_buf s12 !! 2%nat = Some (Z.of_nat (length P2)) ∧
    payload (out_buf s12) = P2 ∧
    fingerprint (out_buf s12) = fingerprint (out_buf s2) ∧
    payload_length (out_buf s12) = payload_length (out_buf s2) ∧
    payload (out_buf s12) = payload (out_buf s2) ∧
    take (3 + length P2) (out_buf s12) = take (3 + length P2) (out_buf s2) ∧
    ((length P1 ≤ length P2)%nat → out_buf s12 = out_buf s2) ∧
    ((length P2 ≤ length P1)%nat →
     drop (3 + length P2) (out_buf s12)
     = drop (length P2) P1 ++ drop (3 + length P1) (out_buf s)).
Proof.
  intros Hob Hb1 Hb2.
  set (n1 := Z.of_nat (length P1)). set (n2 := Z.of_nat (length P2)).
  assert (Hf1 : (Z.to_nat n1 ≤ length (P1 ++ rest1))%nat)
    by (rewrite length_app; lia).
  assert (Hf2 : (Z.to_nat n2 ≤ length (P2 ++ rest2))%nat)
    by (rewrite length_app; lia).
  assert (Hn1 : 0 ≤ n1 ≤ SPI_BUFFER_LEN - 3)
    by (rewrite length_app in Hb1;
        unfold RX_BUFFER_SIZE, SPI_BUFFER_LEN in *; lia).
  assert (Hn2 : 0 ≤ n2 ≤ SPI_BUFFER_LEN - 3)
    by (rewrite length_app in Hb2;
        unfold RX_BUFFER_SIZE, SPI_BUFFER_LEN in *; lia).
  assert (HP1 : take (Z.to_nat n1) (P1 ++ rest1) = P1)
    by (unfold n1; rewrite Nat2Z.id; by apply take_app_length').
  assert (HP2 : take (Z.to_nat n2) (P2 ++ rest2) = P2)
    by (unfold n2; rewrite Nat2Z.id; by apply take_app_length').
  assert (Hid1 : Z.to_nat n1 = length P1) by apply Nat2Z.id.
  assert (Hid2 : Z.to_nat n2 = length P2) by apply Nat2Z.id.
  set (f1 := stored_frame (out_buf s) n1 (P1 ++ rest1)).
  assert (Hlen1 : length f1 = Z.to_nat SPI_BUFFER_LEN)
    by (by apply stored_frame_length).
  exists (count_frame_write (set_out_buf f1 s)),
    (count_frame_write
       (set_out_buf (stored_frame f1 n2 (P2 ++ rest2))
          (count_frame_write (set_out_buf f1 s)))),
    (count_frame_write
       (set_out_buf (stored_frame (out_buf s) n2 (P2 ++ rest2)) s)).
  split; [by apply rx_write_fits|].
  split; [by apply rx_write_fits|].
  split; [by apply rx_write_fits|].
  cbn [out_buf count_frame_write set_out_buf].
  rewrite !stored_frame_fingerprint, !stored_frame_payload_length,
    !stored_frame_payload, HP2 by done.
  split; [by apply stored_frame_lookup_length|].
  split; [done|].
  split; [by apply stored_frame_fingerprint|].
  do 2 (split; [done|]).
  split.
  { rewrite <- Hid2, !stored_frame_head by done.
    change (take 2 f1) with (fingerprint f1). unfold f1.
    by rewrite stored_frame_fingerprint. }
  split.
  { intros Hle. apply stored_frame_overwrite; (done || lia). }
  intros Hle. rewrite <- Hid2, stored_frame_rest by done.
  unfold f1. rewrite stored_frame_tail by (done || lia).
  by rewrite HP1, Hid1.
Qed.

Lemma last_write_wins_witness :
  (length (out_buf ready_state) = Z.to_nat SPI_BUFFER_LEN ∧
   length (note_on_bytes ++ buffer_padding 3) = Z.to_nat RX_BUFFER_SIZE ∧
   length (note_off_bytes ++ buffer_padding 2) = Z.to_nat RX_BUFFER_SIZE) ∧
  ∃ s1 s12 s2,
    rx_write 0 (note_on_bytes ++ buffer_padding 3)
             (Z.of_nat (length note_on_bytes)) ready_state = Some s1 ∧
    rx_write 0 (note_off_bytes ++ buffer_padding 2)
             (Z.of_nat (length note_off_bytes)) s1 = Some s12 ∧
    rx_write 0 (note_off_bytes ++ buffer_padding 2)
             (Z.of_nat (length note_off_bytes)) ready_state = Some s2 ∧
    out_buf s12 !! 2%nat = Some (Z.of_nat (length note_off_bytes)) ∧
    payload (out_buf s12) = note_off_bytes ∧
    fingerprint (out_buf s12) = fingerprint (out_buf s2) ∧
    payload_length (out_buf s12) = payload_length (out_buf s2) ∧
    payload (out_buf s12) = payload (out_buf s2) ∧
    take (3 + length note_off_bytes) (out_buf s12)
    = take (3 + length note_off_bytes) (out_buf s2) ∧
    ((length note_on_bytes ≤ length note_off_bytes)%nat →
     out_buf s12 = out_buf s2) ∧
    ((length note_off_bytes ≤ length note_on_bytes)%nat →
     drop (3 + length note_off_bytes) (out_buf s12)
     = drop (length note_off_bytes) note_on_bytes
       ++ drop (3 + length note_on_bytes) (out_buf ready_state)).
Proof.
  assert (H1 : length (out_buf ready_state) = Z.to_nat SPI_BUFFER_LEN)
    by (vm_compute; reflexivity).
  assert (H2 : length (note_on_bytes ++ buffer_padding 3)
               = Z.to_nat RX_BUFFER_SIZE) by (vm_compute; reflexivity).
  assert (H3 : length (note_off_bytes ++ buffer_padding 2)
               = Z.to_nat RX_BUFFER_SIZE) by (vm_compute; reflexivity).
  split; [exact (conj H1 (conj H2 H3))|].
  exact (last_write_wins ready_state 0 0 note_on_bytes (buffer_padding 3)
           note_off_bytes (buffer_padding 2) H1 H2 H3).
Defined.

(** The frame after writing three bytes and then one differs from the frame
    after writing the one alone: bytes two and three of the first payload
    are still there. *)
Lemma last_write_wins_counterexample :
  ∃ s12 s2,
    (s1 ← rx_write 0 ([1; 2; 3] ++ buffer_padding 3) 3 ready_state;
     rx_write 0 ([9] ++ buffer_padding 1) 1 s1) = Some s12 ∧
    rx_write 0 ([9] ++ buffer_padding 1) 1 ready_state = Some s2 ∧
    take 7 (out_buf s12) = [0xCA; 0xFE; 1; 9; 2; 3; 0] ∧
    take 7 (out_buf s2) = [0xCA; 0xFE; 1; 9; 0; 0; 0] ∧
    out_buf s12 ≠ out_buf s2.
Proof.
  eexists _, _.
  split; [vm_compute; reflexivity|]. split; [vm_compute; reflexivity|].
  split; [vm_compute; reflexivity|]. split; [vm_compute; reflexivity|].
  vm_compute. intros Heq.
  apply (f_equal (λ l : list Z, l !! 4%nat)) in Heq. vm_compute in Heq.
  discriminate Heq.
Qed.

(** The tail of a longer first payload stays in the buffer beyond the
    length that the second write records. *)
Example shorter_second_write_keeps_tail :
  ∃ s',
    (s1 ← rx_write 0 [1; 2] 2 init_state; rx_write 0 [9] 1 s1) = Some s' ∧
    take 5 (out_buf s') = [0; 0; 1; 9; 2].
Proof. eexists. split; reflexivity. Qed.

(** ** Invariants of the interleavings *)

Lemma rx_write_cases cable buffer n s s' :
  rx_write cable buffer n s = Some s' →
  (n > SPI_BUFFER_LEN - 3 ∧ s' = printf (PrMessageTooLong cable) s) ∨
  (n ≤ SPI_BUFFER_LEN - 3 ∧
   (Z.to_nat n ≤ length buffer)%nat ∧
   (3 + Z.to_nat n ≤ length (out_buf s))%nat ∧
   s' = count_frame_write
          (set_out_buf
             (take 3 (<[2%nat:=uint8 n]> (out_buf s)) ++
              take (Z.to_nat n) buffer ++
              drop (3 + Z.to_nat n) (<[2%nat:=uint8 n]> (out_buf s))) s)).
Proof.
  unfold rx_write.
  destruct (Z.gtb_spec n (SPI_BUFFER_LEN - 3)) as [Hgt|Hle].
  - intros [= <-]. left. split; [lia | done].
  - cbn [out_buf set_out_buf].
    destruct (memcpy _ _ _ _) as [ob|] eqn:Hcpy; [|done].
    intros [= <-]. right.
    apply memcpy_inv in Hcpy as (Hsrc & Hdst & ->).
    rewrite length_insert in Hdst. done.
Qed.

(** A property kept by [printf] and by [rx_write] is kept by the loop. *)
Lemma rx_loop_preserves (Q : state → Prop) :
  (∀ p s, Q s → Q (printf p s)) →
  (∀ cable buffer n s s', rx_write cable buffer n s = Some s' → Q s → Q s') →
  ∀ reads s s', rx_loop reads s = Some s' → Q s → Q s'.
Proof.
  intros Hprintf Hwrite reads.
  induction reads as [|r rest IH]; intros s s'; cbn [rx_loop].
  - by intros [= <-].
  - destruct (rd_bytes_read r =? 0); [by intros [= <-]|].
    destruct (rx_write _ _ _ s) as [s1|] eqn:Hw; [|done].
    cbn [mbind option_bind].
    destruct (read_bytes _ _) as [values|]; [|done].
    cbn [mbind option_bind].
    intros Hloop HQ. eapply IH; [done|].
    apply Hprintf. by eapply Hwrite.
Qed.

Lemma run_preserves (Q : state → Prop) :
  (∀ ev s s', step ev s = Some s' → Q s → Q s') →
  ∀ evs s s', run evs s = Some s' → Q s → Q s'.
Proof.
  intros Hstep evs.
  induction evs as [|ev rest IH]; intros s s'; cbn [run].
  - by intros [= <-].
  - destruct (step ev s) as [s1|] eqn:Hs; [|done].
    cbn [mbind option_bind]. intros Hrun HQ.
    eapply IH; [done|]. by eapply Hstep.
Qed.

(** Operations that do not touch the frame. *)
Lemma ws_callback_frame gpio events s :
  out_buf (ws_callback gpio events s) = out_buf s ∧
  frame_writes (ws_callback gpio events s) = frame_writes s ∧
  console (ws_callback gpio events s) = console s.
Proof. unfold ws_callback. by case_match. Qed.

Lemma send_next_note_frame connected e s :
  out_buf (send_next_note connected e s) = out_buf s ∧
  frame_writes (send_next_note connected e s) = frame_writes s ∧
  console (send_next_note connected e s) = console s.
Proof. unfold send_next_note. by repeat case_match. Qed.

Lemma tuh_midi_mount_cb_frame a i o rx tx s :
  out_buf (tuh_midi_mount_cb a i o rx tx s) = out_buf s ∧
  frame_writes (tuh_midi_mount_cb a i o rx tx s) = frame_writes s ∧
  too_long_reports (tuh_midi_mount_cb a i o rx tx s) = too_long_reports s.
Proof. unfold tuh_midi_mount_cb. by case_match. Qed.

Lemma tuh_midi_umount_cb_frame a inst s :
  out_buf (tuh_midi_umount_cb a inst s) = out_buf s ∧
  frame_writes (tuh_midi_umount_cb a inst s) = frame_writes s ∧
  too_long_reports (tuh_midi_umount_cb a inst s) = too_long_reports s.
Proof. unfold tuh_midi_umount_cb. by case_match. Qed.

Lemma core1_iteration_frame miso s :
  frame_writes (core1_iteration miso s) = frame_writes s ∧
  console (core1_iteration miso s) = console s ∧
  (out_buf (core1_iteration miso s) = out_buf s ∨
   out_buf (core1_iteration miso s) = <[2%nat:=0]> (out_buf s)).
Proof.
  unfold core1_iteration. case_match; [|by auto].
  repeat split. by right.
Qed.

(** *** The header of the frame *)

Lemma same_header_refl s : same_header s s.
Proof. by split. Qed.

Lemma same_header_trans s0 s1 s2 :
  same_header s0 s1 → same_header s1 s2 → same_header s0 s2.
Proof. unfold same_header. intros [? ?] [? ?]. split; congruence. Qed.

Lemma same_header_out_buf s0 s :
  out_buf s = out_buf s0 → same_header s0 s.
Proof. unfold same_header. by intros ->. Qed.

Lemma same_header_clear_length s0 s :
  out_buf s = <[2%nat:=0]> (out_buf s0) → same_header s0 s.
Proof.
  unfold same_header, fingerprint. intros ->.
  rewrite length_insert, take_insert_ge by lia. done.
Qed.

Lemma rx_write_header cable buffer n s s' :
  rx_write cable buffer n s = Some s' → same_header s s'.
Proof.
  intros [[_ ->]|(_ & Hsrc & Hdst & ->)]%rx_write_cases.
  - by apply same_header_out_buf.
  - unfold same_header, fingerprint. cbn [out_buf count_frame_write set_out_buf].
    split.
    + rewrite memcpy_length by (rewrite ?length_insert; lia).
      by rewrite length_insert.
    + rewrite take_app_le by (rewrite length_take, length_insert; lia).
      rewrite take_take, take_insert_ge by lia. done.
Qed.

Lemma rx_loop_header reads s s' :
  rx_loop reads s = Some s' → same_header s s'.
Proof.
  intros Hloop.
  apply (rx_loop_preserves (same_header s)) with reads s;
    [done| |done|apply same_header_refl].
  intros cable buffer n s1 s2 Hw Hs1.
  eapply same_header_trans; [done|]. by eapply rx_write_header.
Qed.

Lemma step_header ev s s' : step ev s = Some s' → same_header s s'.
Proof.
  destruct ev as [gpio events|miso|a i o rx tx|a inst|a n reads|cfg e];
    cbn [step].
  - intros [= <-]. apply same_header_out_buf, ws_callback_frame.
  - intros [= <-].
    destruct (core1_iteration_frame miso s) as (_ & _ & [Hob|Hob]).
    + by apply same_header_out_buf.
    + by apply same_header_clear_length.
  - intros [= <-]. apply same_header_out_buf, tuh_midi_mount_cb_frame.
  - intros [= <-]. apply same_header_out_buf, tuh_midi_umount_cb_frame.
  - unfold tuh_midi_rx_cb. cbn [midi_dev_addr printf].
    repeat case_match; try (intros [= <-]; by apply same_header_out_buf).
    intros Hloop%rx_loop_header. done.
  - intros [= <-]. apply same_header_out_buf, send_next_note_frame.
Qed.

Lemma run_header evs s s' : run evs s = Some s' → same_header s s'.
Proof.
  intros Hrun.
  apply (run_preserves (same_header s)) with evs s;
    [|done|apply same_header_refl].
  intros ev s1 s2 Hs Hs1.
  eapply same_header_trans; [done|]. by eapply step_header.
Qed.

(** *** Between two writes *)

Lemma quiet_refl s : quiet s s.
Proof. by split. Qed.

Lemma quiet_trans s0 s1 s2 : quiet s0 s1 → quiet s1 s2 → quiet s0 s2.
Proof.
  unfold quiet. intros [Hle1 H1] [Hle2 H2]. split; [lia|].
  intros Heq Hz. apply H2; [lia|]. apply H1; [lia | done].
Qed.

Lemma quiet_unchanged s0 s :
  out_buf s = out_buf s0 → frame_writes s = frame_writes s0 → quiet s0 s.
Proof. unfold quiet. intros -> ->. by split. Qed.

Lemma rx_write_quiet cable buffer n s s' :
  rx_write cable buffer n s = Some s' → quiet s s'.
Proof.
  intros [[_ ->]|(_ & _ & _ & ->)]%rx_write_cases.
  - by apply quiet_unchanged.
  - unfold quiet. cbn [frame_writes count_frame_write set_out_buf].
    split; [lia|]. lia.
Qed.

Lemma rx_loop_quiet reads s s' : rx_loop reads s = Some s' → quiet s s'.
Proof.
  intros Hloop.
  apply (rx_loop_preserves (quiet s)) with reads s;
    [done| |done|apply quiet_refl].
  intros cable buffer n s1 s2 Hw Hs1.
  eapply quiet_trans; [done|]. by eapply rx_write_quiet.
Qed.

Lemma step_quiet ev s s' : step ev s = Some s' → quiet s s'.
Proof.
  destruct ev as [gpio events|miso|a i o rx tx|a inst|a n reads|cfg e];
    cbn [step].
  - intros [= <-]. apply quiet_unchanged; apply ws_callback_frame.
  - intros [= <-].
    destruct (core1_iteration_frame miso s) as (Hfw & _ & [Hob|Hob]).
    + by apply quiet_unchanged.
    + unfold quiet. rewrite Hfw, Hob. split; [done|].
      intros _ Hz. apply list_lookup_insert_eq.
      by apply lookup_lt_Some in Hz.
  - intros [= <-]. apply quiet_unchanged; apply tuh_midi_mount_cb_frame.
  - intros [= <-]. apply quiet_unchanged; apply tuh_midi_umount_cb_frame.
  - unfold tuh_midi_rx_cb. cbn [midi_dev_addr printf].
    repeat case_match; try (intros [= <-]; by apply quiet_unchanged).
    intros Hloop%rx_loop_quiet. done.
  - intros [= <-]. apply quiet_unchanged; apply send_next_note_frame.
Qed.

Lemma run_quiet evs s s' : run evs s = Some s' → quiet s s'.
Proof.
  intros Hrun.
  apply (run_preserves (quiet s)) with evs s; [|done|apply quiet_refl].
  intros ev s1 s2 Hs Hs1.
  eapply quiet_trans; [done|]. by eapply step_quiet.
Qed.

Lemma core1_iteration_clears miso s :
  (3 ≤ length (out_buf s))%nat →
  0 < permits (ws_semaphore s) →
  out_buf (core1_iteration miso s) !! 2%nat = Some 0.
Proof.
  intros Hlen Hp. rewrite core1_iteration_permit by done.
  cbn. apply list_lookup_insert_eq. lia.
Qed.

(** C3.  Right after a turn of the core 1 loop byte 2 of [out_buf] is 0, and
    it is still 0 after any further events during which no copy into the
    frame took place; the next write that fits sets it to its own length. *)
Theorem payload_length_zero_until_next_write
    (s : state) (miso : list Z) (evs : list event) (s' : state) :
  length (out_buf s) = Z.to_nat SPI_BUFFER_LEN →
  0 < permits (ws_semaphore s) →
  run evs (core1_iteration miso s) = Some s' →
  frame_writes s' = frame_writes (core1_iteration miso s) →
  out_buf (core1_iteration miso s) !! 2%nat = Some 0 ∧
  out_buf s' !! 2%nat = Some 0 ∧
  ∀ cable_num buffer bytes_read,
    0 ≤ bytes_read ≤ SPI_BUFFER_LEN - 3 →
    (Z.to_nat bytes_read ≤ length buffer)%nat →
    ∃ s'',
      rx_write cable_num buffer bytes_read s' = Some s'' ∧
      frame_writes s'' = S (frame_writes s') ∧
      out_buf s'' !! 2%nat = Some bytes_read.
Proof.
  intros Hlen Hp Hrun Hfw.
  assert (Hz : out_buf (core1_iteration miso s) !! 2%nat = Some 0)
    by (apply core1_iteration_clears; [unfold SPI_BUFFER_LEN in *; lia|done]).
  split; [done|].
  split; [by apply (run_quiet _ _ _ Hrun)|].
  intros cable buffer n Hn Hbuf.
  assert (Hlen' : length (out_buf s') = Z.to_nat SPI_BUFFER_LEN).
  { destruct (run_header _ _ _ Hrun) as [-> _].
    destruct (core1_iteration_frame miso s) as (_ & _ & [->| ->]);
      rewrite ?length_insert; done. }
  eexists. split; [by apply rx_write_fits|].
  split; [done|]. cbn [out_buf count_frame_write set_out_buf].
  by apply stored_frame_lookup_length.
Qed.

Lemma payload_length_zero_until_next_write_witness :
  (length (out_buf ready_state) = Z.to_nat SPI_BUFFER_LEN ∧
   0 < permits (ws_semaphore ready_state) ∧
   run idle_trace (core1_iteration idle_miso ready_state)
   = Some idle_trace_end ∧
   frame_writes idle_trace_end
   = frame_writes (core1_iteration idle_miso ready_state)) ∧
  out_buf idle_trace_end !! 2%nat = Some 0.
Proof.
  assert (H1 : length (out_buf ready_state) = Z.to_nat SPI_BUFFER_LEN)
    by (vm_compute; reflexivity).
  assert (H2 : 0 < permits (ws_semaphore ready_state)) by (vm_compute; reflexivity).
  assert (H3 : run idle_trace (core1_iteration idle_miso ready_state)
               = Some idle_trace_end) by (vm_compute; reflexivity).
  assert (H4 : frame_writes idle_trace_end
               = frame_writes (core1_iteration idle_miso ready_state))
    by (vm_compute; reflexivity).
  split; [exact (conj H1 (conj H2 (conj H3 H4)))|].
  exact (proj1 (proj2 (payload_length_zero_until_next_write
                         ready_state idle_miso idle_trace idle_trace_end
                         H1 H2 H3 H4))).
Defined.

(** *** The driver's side of [tuh_midi_stream_read] *)

Lemma rx_safe_refl s :
  length (out_buf s) = Z.to_nat SPI_BUFFER_LEN → rx_safe s s.
Proof. by split. Qed.

Lemma rx_safe_trans s0 s1 s2 : rx_safe s0 s1 → rx_safe s1 s2 → rx_safe s0 s2.
Proof.
  unfold rx_safe. intros (? & ? & ?) (? & ? & ?).
  split; [done|]. split; [congruence | auto].
Qed.

Lemma rx_safe_unchanged s0 s :
  length (out_buf s0) = Z.to_nat SPI_BUFFER_LEN →
  out_buf s = out_buf s0 → too_long_reports s = too_long_reports s0 →
  rx_safe s0 s.
Proof.
  unfold rx_safe, length_byte_bounded. intros Hlen -> ->. by split.
Qed.

Lemma rx_loop_safe reads s :
  Forall (stream_read_fits RX_BUFFER_SIZE) reads →
  length (out_buf s) = Z.to_nat SPI_BUFFER_LEN →
  ∃ s', rx_loop reads s = Some s' ∧ rx_safe s s'.
Proof.
  intros Hreads. revert s.
  induction Hreads as [|r rest [Hbuf Hn] _ IH]; intros s Hlen; cbn [rx_loop].
  - eexists. split; [done|]. by apply rx_safe_refl.
  - destruct (rd_bytes_read r =? 0).
    { eexists. split; [done|]. by apply rx_safe_refl. }
    unfold RX_BUFFER_SIZE, SPI_BUFFER_LEN in *.
    rewrite rx_write_fits by (unfold SPI_BUFFER_LEN; (done || lia)).
    cbn [mbind option_bind]. unfold read_bytes.
    case_decide as Hd; [|lia]. cbn [mbind option_bind].
    set (s1 := printf _ _).
    assert (Hs1 : rx_safe s s1).
    { unfold rx_safe, s1. cbn [out_buf printf count_frame_write set_out_buf].
      split; [apply stored_frame_length; unfold SPI_BUFFER_LEN; (done||lia)|].
      split; [done|]. intros _. exists (rd_bytes_read r).
      split; [|unfold RX_BUFFER_SIZE; lia].
      apply stored_frame_lookup_length; unfold SPI_BUFFER_LEN; (done||lia). }
    destruct (IH s1) as (s' & Hloop & Hs'); [apply Hs1|].
    exists s'. split; [done|]. by eapply rx_safe_trans.
Qed.

Lemma step_safe ev s :
  driver_respects_buffer ev →
  length (out_buf s) = Z.to_nat SPI_BUFFER_LEN →
  ∃ s', step ev s = Some s' ∧ rx_safe s s'.
Proof.
  intros Hev Hlen.
  destruct ev as [gpio events|miso|a i o rx tx|a inst|a n reads|cfg e];
    cbn [step driver_respects_buffer] in *.
  - eexists. split; [done|].
    destruct (ws_callback_frame gpio events s) as (Hob & _ & Hc).
    apply rx_safe_unchanged; [done..|]. unfold too_long_reports. by rewrite Hc.
  - eexists. split; [done|].
    destruct (core1_iteration_frame miso s) as (_ & Hc & [Hob|Hob]).
    + apply rx_safe_unchanged; [done..|]. unfold too_long_reports.
      by rewrite Hc.
    + unfold rx_safe, too_long_reports. rewrite Hob, Hc, length_insert.
      split; [done|]. split; [done|]. intros _. exists 0.
      split; [|unfold RX_BUFFER_SIZE; lia].
      rewrite Hob. apply list_lookup_insert_eq.
      unfold SPI_BUFFER_LEN in *. lia.
  - eexists. split; [done|].
    apply rx_safe_unchanged; [done|apply tuh_midi_mount_cb_frame..].
  - eexists. split; [done|].
    apply rx_safe_unchanged; [done|apply tuh_midi_umount_cb_frame..].
  - unfold tuh_midi_rx_cb. cbn [midi_dev_addr printf].
    repeat case_match;
      try (eexists; split; [done|]; by apply rx_safe_unchanged).
    destruct (rx_loop_safe reads (printf PrMidiCallback s)) as (s' & Hl & Hs');
      [done..|].
    exists s'. split; [done|]. apply Hs'.
  - eexists. split; [done|].
    destruct (send_next_note_frame
                (negb (midi_dev_addr s =? 0) && cfg) e s) as (Hob & _ & Hc).
    apply rx_safe_unchanged; [done..|]. unfold too_long_reports.
    unfold main_iteration. by rewrite Hc.
Qed.

Lemma run_safe evs s :
  Forall driver_respects_buffer evs →
  length (out_buf s) = Z.to_nat SPI_BUFFER_LEN →
  ∃ s', run evs s = Some s' ∧ rx_safe s s'.
Proof.
  intros Hevs. revert s.
  induction Hevs as [|ev rest Hev _ IH]; intros s Hlen; cbn [run].
  - eexists. split; [done|]. by apply rx_safe_refl.
  - destruct (step_safe ev s) as (s1 & -> & Hs1); [done..|].
    cbn [mbind option_bind].
    destruct (IH s1) as (s' & Hrun & Hs'); [apply Hs1|].
    exists s'. split; [done|]. by eapply rx_safe_trans.
Qed.

Lemma core1_setup_out_buf s :
  out_buf (core1_setup s) = <[1%nat:=0xFE]> (<[0%nat:=0xCA]> (out_buf s)).
Proof. done. Qed.

Lemma core1_setup_fingerprint s :
  (2 ≤ length (out_buf s))%nat →
  fingerprint (out_buf (core1_setup s)) = [0xCA; 0xFE].
Proof.
  rewrite core1_setup_out_buf. unfold fingerprint.
  destruct (out_buf s) as [|a [|b l]]; cbn; intros; (done || lia).
Qed.

(** C9.  Core 1 sets bytes 0 and 1 of [out_buf] to 0xCA 0xFE before entering
    its loop.  Neither a write nor a turn of the core 1 loop changes them,
    so they are still there after any sequence of events; and such a
    sequence runs without undefined behaviour when the driver respects the
    receive buffer. *)
Theorem fingerprint_is_invariant (s : state) (evs : list event) :
  length (out_buf s) = Z.to_nat SPI_BUFFER_LEN →
  fingerprint (out_buf (core1_setup s)) = [0xCA; 0xFE] ∧
  (∀ cable_num buffer bytes_read s1 s2,
     rx_write cable_num buffer bytes_read s1 = Some s2 →
     fingerprint (out_buf s2) = fingerprint (out_buf s1)) ∧
  (∀ miso s1,
     fingerprint (out_buf (core1_iteration miso s1))
     = fingerprint (out_buf s1)) ∧
  (∀ s', run evs (core1_setup s) = Some s' →
         fingerprint (out_buf s') = [0xCA; 0xFE]) ∧
  (Forall driver_respects_buffer evs → is_Some (run evs (core1_setup s))).
Proof.
  intros Hlen.
  assert (Hfp : fingerprint (out_buf (core1_setup s)) = [0xCA; 0xFE])
    by (apply core1_setup_fingerprint; unfold SPI_BUFFER_LEN in *; lia).
  split; [done|].
  split; [intros ????? Hw; apply (rx_write_header _ _ _ _ _ Hw)|].
  split.
  { intros miso s1. apply (step_header (Core1Iteration miso) s1). done. }
  split.
  { intros s' Hrun. rewrite <- Hfp. apply (run_header _ _ _ Hrun). }
  intros Hevs.
  destruct (run_safe evs (core1_setup s)) as (s' & -> & _); [done| |done].
  by rewrite core1_setup_out_buf, !length_insert.
Qed.

Lemma fingerprint_is_invariant_witness :
  length (out_buf init_state) = Z.to_nat SPI_BUFFER_LEN ∧
  fingerprint (out_buf (core1_setup init_state)) = [0xCA; 0xFE] ∧
  (∀ s', run sample_trace (core1_setup init_state) = Some s' →
         fingerprint (out_buf s') = [0xCA; 0xFE]) ∧
  is_Some (run sample_trace (core1_setup init_state)).
Proof.
  assert (H1 : length (out_buf init_state) = Z.to_nat SPI_BUFFER_LEN)
    by (vm_compute; reflexivity).
  assert (H2 : Forall driver_respects_buffer sample_trace) by compute_done.
  destruct (fingerprint_is_invariant init_state sample_trace H1)
    as (Hset & _ & _ & Hrun & Hdef).
  exact (conj H1 (conj Hset (conj Hrun (Hdef H2)))).
Defined.

Lemma init_state_safe :
  length (out_buf init_state) = Z.to_nat SPI_BUFFER_LEN ∧
  too_long_reports init_state = 0%nat ∧
  length_byte_bounded init_state.
Proof.
  split; [done|]. split; [done|]. exists 0. by split.
Qed.

Lemma core1_setup_safe s :
  length (out_buf s) = Z.to_nat SPI_BUFFER_LEN →
  rx_safe s (core1_setup s).
Proof.
  intros Hlen. unfold rx_safe, length_byte_bounded.
  rewrite core1_setup_out_buf, !length_insert.
  split; [done|]. split; [done|].
  by rewrite !list_lookup_insert_ne by done.
Qed.

(** C10.  The receive buffer holds 48 bytes, fewer than the 61 a frame can
    carry.  If every stream read stays within that buffer, then from
    power-up on, whatever happens before and after core 1 has set up, no
    copy leaves its arrays, "Message too long" is never printed, [out_buf]
    keeps its 64 bytes and its length byte stays in [0 .. 48]. *)
Theorem oversize_branch_unreachable (before after : list event) :
  Forall driver_respects_buffer before →
  Forall driver_respects_buffer after →
  RX_BUFFER_SIZE < SPI_BUFFER_LEN - 3 ∧
  ∃ s1 s2,
    run before init_state = Some s1 ∧
    run after (core1_setup s1) = Some s2 ∧
    length (out_buf s2) = Z.to_nat SPI_BUFFER_LEN ∧
    too_long_reports s2 = 0%nat ∧
    ∃ n, out_buf s2 !! 2%nat = Some n ∧ 0 ≤ n ≤ RX_BUFFER_SIZE.
Proof.
  intros Hbefore Hafter. split; [done|].
  destruct init_state_safe as (Hlen0 & Hrep0 & Hb0).
  destruct (run_safe before init_state) as (s1 & Hrun1 & Hs1); [done..|].
  assert (Hlen1 : length (out_buf s1) = Z.to_nat SPI_BUFFER_LEN) by apply Hs1.
  pose proof (core1_setup_safe s1 Hlen1) as Hsetup.
  destruct (run_safe after (core1_setup s1)) as (s2 & Hrun2 & Hs2);
    [done|apply Hsetup|].
  assert (Hall : rx_safe init_state s2)
    by (eapply rx_safe_trans; [|done]; by eapply rx_safe_trans).
  destruct Hall as (Hlen2 & Hrep2 & Hb2).
  exists s1, s2. do 3 (split; [done|]).
  split; [congruence|]. by apply Hb2.
Qed.

Lemma oversize_branch_unreachable_witness :
  (Forall driver_respects_buffer [] ∧
   Forall driver_respects_buffer sample_trace) ∧
  RX_BUFFER_SIZE < SPI_BUFFER_LEN - 3 ∧
  ∃ s1 s2,
    run [] init_state = Some s1 ∧
    run sample_trace (core1_setup s1) = Some s2 ∧
    length (out_buf s2) = Z.to_nat SPI_BUFFER_LEN ∧
    too_long_reports s2 = 0%nat ∧
    ∃ n, out_buf s2 !! 2%nat = Some n ∧ 0 ≤ n ≤ RX_BUFFER_SIZE.
Proof.
  assert (H1 : Forall driver_respects_buffer []) by compute_done.
  assert (H2 : Forall driver_respects_buffer sample_trace) by compute_done.
  split; [exact (conj H1 H2)|].
  exact (oversize_branch_unreachable [] sample_trace H1 H2).
Defined.

(** ** The clock decimator *)

Lemma int32_small x : - 2 ^ 31 ≤ x < 2 ^ 31 → int32 x = x.
Proof. intros H. unfold int32. rewrite Z.mod_small; lia. Qed.

(** One edge, seen from a counter in its range. *)
Lemma ws_callback_counts gpio events s :
  1 ≤ div s ≤ 32 →
  let s' := ws_callback gpio events s in
  (div s = 1 →
     div s' = 32 ∧ sem_releases s' = S (sem_releases s) ∧
     ws_semaphore s' = sem_release (ws_semaphore s)) ∧
  (div s ≠ 1 →
     div s' = div s - 1 ∧ sem_releases s' = sem_releases s ∧
     ws_semaphore s' = ws_semaphore s).
Proof.
  intros Hd. unfold ws_callback. cbn [div set_div].
  rewrite int32_small by lia.
  destruct (Z.leb_spec (div s - 1) 0); split; intros; (done || lia).
Qed.

(** After [q * 32 + r] edges the counter has run down by [r] and [q]
    releases have been made. *)
Lemma edges_count k s :
  div s = 32 →
  ∃ q r : nat,
    k = (q * 32 + r)%nat ∧ (r < 32)%nat ∧
    div (edges k s) = 32 - Z.of_nat r ∧
    sem_releases (edges k s) = (sem_releases s + q)%nat ∧
    ws_semaphore (edges k s) = Nat.iter q sem_release (ws_semaphore s).
Proof.
  intros Hs. induction k as [|k (q & r & -> & Hr & IHd & IHn & IHsem)];
    cbn [edges].
  - exists 0%nat, 0%nat. rewrite Hs. repeat split; (done || lia).
  - assert (Hrange : 1 ≤ div (edges (q * 32 + r) s) ≤ 32) by lia.
    destruct (ws_callback_counts WS_PIN GPIO_IRQ_EDGE_FALL _ Hrange)
      as [Hwrap Hstep].
    destruct (decide (div (edges (q * 32 + r) s) = 1)) as [H1|H1].
    + destruct (Hwrap H1) as (-> & -> & ->).
      exists (S q), 0%nat. rewrite IHsem, Nat.iter_succ.
      repeat split; (done || lia).
    + destruct (Hstep H1) as (-> & -> & ->).
      exists q, (S r). repeat split; (done || lia).
Qed.

Lemma edges_at q r s :
  div s = 32 → (r < 32)%nat →
  div (edges (q * 32 + r) s) = 32 - Z.of_nat r ∧
  sem_releases (edges (q * 32 + r) s) = (sem_releases s + q)%nat ∧
  ws_semaphore (edges (q * 32 + r) s) = Nat.iter q sem_release (ws_semaphore s).
Proof.
  intros Hs Hr.
  destruct (edges_count (q * 32 + r) s Hs) as (q' & r' & Hk & Hr' & Hrest).
  assert (q' = q ∧ r' = r) as [-> ->] by lia. done.
Qed.

Lemma sem_release_binary q :
  Nat.iter q sem_release (sem_init 0 1) = Sem (Z.min 1 (Z.of_nat q)) 1.
Proof.
  induction q as [|q IH]; [done|]. rewrite Nat.iter_succ, IH.
  unfold sem_release. cbn [permits max_permits].
  destruct (Z.ltb_spec (Z.min 1 (Z.of_nat q)) 1); f_equal; lia.
Qed.

(** C4.  From the initial counter value 32: after [n * 32] edges exactly [n]
    releases have been made (and at most one permit is pending), the [j]
    edges after that, [0 < j < 32], make none; the counter stays in
    [0 .. 32], also right after the decrement, and an edge that makes a
    release leaves the counter at 32. *)
Theorem decimator_releases_every_32nd_edge (n : nat) :
  let s0 := core1_setup init_state in
  sem_releases (edges (n * 32) s0) = n ∧
  permits (ws_semaphore (edges (n * 32) s0)) = Z.min 1 (Z.of_nat n) ∧
  (∀ j, (0 < j < 32)%nat →
        sem_releases (edges (n * 32 + j) s0) = n ∧
        div (edges (n * 32 + j) s0) = 32 - Z.of_nat j) ∧
  (∀ k, 0 ≤ int32 (div (edges k s0) - 1) ∧
        0 ≤ div (edges k s0) ≤ 32 ∧
        (sem_releases (edges (S k) s0) ≠ sem_releases (edges k s0) →
         sem_releases (edges (S k) s0) = S (sem_releases (edges k s0)) ∧
         div (edges (S k) s0) = 32)).
Proof.
  intros s0.
  assert (Hs0 : div s0 = 32) by done.
  split.
  { replace (n * 32)%nat with (n * 32 + 0)%nat by lia.
    destruct (edges_at n 0 s0) as (_ & -> & _); (done || lia). }
  split.
  { replace (n * 32)%nat with (n * 32 + 0)%nat by lia.
    destruct (edges_at n 0 s0) as (_ & _ & ->); [done | lia |].
    change (ws_semaphore s0) with (sem_init 0 1).
    by rewrite sem_release_binary. }
  split.
  { intros j Hj. destruct (edges_at n j s0) as (-> & -> & _); (done || lia). }
  intros k.
  destruct (edges_count k s0 Hs0) as (q & r & -> & Hr & Hd & Hrel & _).
  assert (Hrange : 1 ≤ div (edges (q * 32 + r) s0) ≤ 32) by lia.
  rewrite int32_small by lia.
  split; [lia|]. split; [lia|].
  cbn [edges].
  destruct (ws_callback_counts WS_PIN GPIO_IRQ_EDGE_FALL _ Hrange)
    as [Hwrap Hstep].
  destruct (decide (div (edges (q * 32 + r) s0) = 1)) as [H1|H1].
  - destruct (Hwrap H1) as (-> & -> & _). done.
  - destruct (Hstep H1) as (_ & -> & _). done.
Qed.

Lemma decimator_releases_every_32nd_edge_witness :
  sem_releases (edges (2 * 32) (core1_setup init_state)) = 2%nat ∧
  permits (ws_semaphore (edges (2 * 32) (core1_setup init_state))) = 1 ∧
  sem_releases (edges (2 * 32 + 31) (core1_setup init_state)) = 2%nat ∧
  div (edges (2 * 32 + 31) (core1_setup init_state)) = 1.
Proof.
  destruct (decimator_releases_every_32nd_edge 2) as (H1 & H2 & H3 & _).
  assert (Hj : (0 < 31 < 32)%nat) by lia.
  destruct (H3 31%nat Hj) as [H4 H5].
  exact (conj H1 (conj H2 (conj H4 H5))).
Defined.

(** ** The connection callbacks *)

Lemma mount_when_free a i o rx tx s :
  midi_dev_addr s = 0 → midi_dev_addr (tuh_midi_mount_cb a i o rx tx s) = a.
Proof.
  intros Hs. unfold tuh_midi_mount_cb. cbn [midi_dev_addr printf].
  by rewrite Hs.
Qed.

Lemma mount_when_taken a i o rx tx s :
  midi_dev_addr s ≠ 0 →
  midi_dev_addr (tuh_midi_mount_cb a i o rx tx s) = midi_dev_addr s ∧
  console (tuh_midi_mount_cb a i o rx tx s)
  = PrAlreadyConnected
      :: PrMounted a (Z.land i 0xf) rx (Z.land o 0xf) tx :: console s.
Proof.
  intros Hs. unfold tuh_midi_mount_cb. cbn [midi_dev_addr printf].
  destruct (Z.eqb_spec (midi_dev_addr s) 0); done.
Qed.

Lemma umount_active inst s :
  midi_dev_addr (tuh_midi_umount_cb (midi_dev_addr s) inst s) = 0.
Proof. unfold tuh_midi_umount_cb. by rewrite Z.eqb_refl. Qed.

Lemma umount_other a inst s :
  a ≠ midi_dev_addr s →
  midi_dev_addr (tuh_midi_umount_cb a inst s) = midi_dev_addr s.
Proof.
  intros Ha. unfold tuh_midi_umount_cb.
  destruct (Z.eqb_spec a (midi_dev_addr s)); done.
Qed.

(** C5.  With no device recorded, mounting [A] (a device address, so not 0)
    records [A]; mounting [B] while [A] is recorded is refused and [A]
    stays; after unmounting [A] the record is empty and mounting [B]
    records [B]. *)
Theorem first_device_stays_active
    (s : state) (A B in_A out_A rx_A tx_A in_B out_B rx_B tx_B inst : Z) :
  midi_dev_addr s = 0 →
  A ≠ 0 →
  let s1 := tuh_midi_mount_cb A in_A out_A rx_A tx_A s in
  let s2 := tuh_midi_mount_cb B in_B out_B rx_B tx_B s1 in
  let s3 := tuh_midi_umount_cb A inst s2 in
  let s4 := tuh_midi_mount_cb B in_B out_B rx_B tx_B s3 in
  midi_dev_addr s1 = A ∧
  midi_dev_addr s2 = A ∧
  head (console s2) = Some PrAlreadyConnected ∧
  midi_dev_addr s3 = 0 ∧
  midi_dev_addr s4 = B.
Proof.
  intros Hfree HA s1 s2 s3 s4.
  assert (H1 : midi_dev_addr s1 = A) by (by apply mount_when_free).
  destruct (mount_when_taken B in_B out_B rx_B tx_B s1) as [H2 Hc2];
    [by rewrite H1|].
  fold s2 in H2, Hc2. rewrite H1 in H2.
  assert (H3 : midi_dev_addr s3 = 0).
  { unfold s3. rewrite <- H2 at 1. apply umount_active. }
  split; [done|]. split; [done|]. split; [by rewrite Hc2|].
  split; [done|]. by apply mount_when_free.
Qed.

Lemma first_device_stays_active_witness :
  (midi_dev_addr init_state = 0 ∧ 1 ≠ 0) ∧
  midi_dev_addr (tuh_midi_mount_cb 1 0x81 0x01 1 1 init_state) = 1 ∧
  midi_dev_addr
    (tuh_midi_mount_cb 2 0x82 0x02 1 1
       (tuh_midi_mount_cb 1 0x81 0x01 1 1 init_state)) = 1 ∧
  head (console
    (tuh_midi_mount_cb 2 0x82 0x02 1 1
       (tuh_midi_mount_cb 1 0x81 0x01 1 1 init_state)))
  = Some PrAlreadyConnected ∧
  midi_dev_addr
    (tuh_midi_umount_cb 1 0
       (tuh_midi_mount_cb 2 0x82 0x02 1 1
          (tuh_midi_mount_cb 1 0x81 0x01 1 1 init_state))) = 0 ∧
  midi_dev_addr
    (tuh_midi_mount_cb 2 0x82 0x02 1 1
       (tuh_midi_umount_cb 1 0
          (tuh_midi_mount_cb 2 0x82 0x02 1 1
             (tuh_midi_mount_cb 1 0x81 0x01 1 1 init_state)))) = 2.
Proof.
  assert (H1 : midi_dev_addr init_state = 0) by reflexivity.
  assert (H2 : 1 ≠ 0) by lia.
  split; [exact (conj H1 H2)|].
  exact (first_device_stays_active init_state 1 2 0x81 0x01 1 1 0x82 0x02 1 1 0
           H1 H2).
Defined.

(** Address 0 is the marker for "no device": mounting it leaves the slot
    free for the next device. *)
Example mount_of_address_zero :
  midi_dev_addr
    (tuh_midi_mount_cb 7 0x81 0x01 1 1
       (tuh_midi_mount_cb 0 0x81 0x01 1 1 init_state)) = 7.
Proof. reflexivity. Qed.

(** ** The note sequencer *)

Lemma send_next_note_attempted connected e s :
  write_attempted connected e s →
  send_next_note connected e s
  = let s1 := midi_call_made (StreamFlush (midi_dev_addr s)) s in
    let s2 := set_start_ms (uint32 (start_ms s1 + interval_ms)) s1 in
    let nw := uint32 (0 + nwritten e) in
    let s3 :=
      midi_call_made
        (StreamWrite (midi_dev_addr s2) (uint8 (tx_cables e - 1))
                     (message s2) nw) s2 in
    let s4 :=
      if negb (nw =? 0) then set_message (advance_notes (message s3)) s3
      else s3 in
    midi_call_made (StreamFlush (midi_dev_addr s4)) s4.
Proof.
  intros (-> & Hcables & Htime). unfold send_next_note.
  cbn [negb orb].
  destruct (Z.ltb_spec (tx_cables_guard e) 1); [lia|].
  cbn [start_ms midi_call_made].
  destruct (Z.ltb_spec (uint32 (now_ms e - start_ms s)) interval_ms); [lia|].
  done.
Qed.

Lemma send_next_note_message connected e s :
  message (send_next_note connected e s) = message s ∨
  (write_attempted connected e s ∧ uint32 (0 + nwritten e) ≠ 0 ∧
   message (send_next_note connected e s) = advance_notes (message s)).
Proof.
  unfold send_next_note, write_attempted.
  destruct connected; cbn [negb orb]; [|by left].
  destruct (Z.ltb_spec (tx_cables_guard e) 1); [by left|].
  cbn [start_ms midi_call_made].
  destruct (Z.ltb_spec (uint32 (now_ms e - start_ms s)) interval_ms);
    [by left|].
  destruct (Z.eqb_spec (uint32 (0 + nwritten e)) 0); [by left|].
  right. done.
Qed.

Lemma send_next_note_advances e s :
  write_attempted true e s → uint32 (0 + nwritten e) ≠ 0 →
  message (send_next_note true e s) = advance_notes (message s).
Proof.
  intros Hatt Hnw. rewrite send_next_note_attempted by done.
  cbn zeta. destruct (Z.eqb_spec (uint32 (0 + nwritten e)) 0); done.
Qed.

Lemma advance_notes_note_on (m : list Z) (n : Z) :
  m !! 4%nat = Some n → first_note ≤ n ≤ last_note →
  advance_notes m !! 4%nat
  = Some (if n =? last_note then first_note else n + 1).
Proof.
  unfold first_note, last_note. intros Hm Hn.
  assert (Hlen : (4 < length m)%nat) by (by apply lookup_lt_Some in Hm).
  unfold advance_notes, last_note, first_note.
  rewrite (list_lookup_total_insert_ne _ 1 4) by done.
  rewrite (list_lookup_total_correct _ _ _ Hm).
  rewrite (list_lookup_total_insert_ne _ 4 1) by done.
  rewrite (uint8_small (n + 1)) by lia.
  set (m1 := <[1%nat:=_]> m).
  assert (Hlen1 : (4 < length m1)%nat) by (unfold m1; by rewrite length_insert).
  assert (H4 : ∀ l : list Z, (4 < length l)%nat → <[4%nat:=n + 1]> l !!! 4%nat = n + 1)
    by (intros l Hl; by rewrite list_lookup_total_insert_eq).
  assert (H4' : (if m1 !!! 1%nat >? 95
                 then <[1%nat:=91]> (<[4%nat:=n + 1]> m1)
                 else <[4%nat:=n + 1]> m1) !!! 4%nat = n + 1).
  { case_match.
    - rewrite list_lookup_total_insert_ne by done. by apply H4.
    - by apply H4. }
  rewrite H4'.
  destruct (Z.gtb_spec (n + 1) 95), (Z.eqb_spec n 95); try lia.
  - apply list_lookup_insert_eq. case_match; rewrite ?length_insert; lia.
  - case_match.
    + rewrite list_lookup_insert_ne by done.
      apply list_lookup_insert_eq. lia.
    + apply list_lookup_insert_eq. lia.
Qed.

Lemma note_sent_step e s n :
  note_sent e s →
  message s !! 4%nat = Some n → first_note ≤ n ≤ last_note →
  message (send_next_note true e s) !! 4%nat
  = Some (if n =? last_note then first_note else n + 1).
Proof.
  intros [Hatt Hnw] Hm Hn.
  rewrite send_next_note_advances by done.
  by apply advance_notes_note_on.
Qed.

(** C6.  Starting with the note-on byte [message[4]] at 0x5b, five calls of
    [send_next_note] that each get bytes accepted by the driver take it to
    0x5c, 0x5d, 0x5e, 0x5f and, on the fifth, back to 0x5b. *)
Theorem note_on_pointer_cycles (s0 : state) (e1 e2 e3 e4 e5 : note_env) :
  message s0 !! 4%nat = Some 0x5b →
  let s1 := send_next_note true e1 s0 in
  let s2 := send_next_note true e2 s1 in
  let s3 := send_next_note true e3 s2 in
  let s4 := send_next_note true e4 s3 in
  let s5 := send_next_note true e5 s4 in
  note_sent e1 s0 → note_sent e2 s1 → note_sent e3 s2 →
  note_sent e4 s3 → note_sent e5 s4 →
  message s1 !! 4%nat = Some 0x5c ∧
  message s2 !! 4%nat = Some 0x5d ∧
  message s3 !! 4%nat = Some 0x5e ∧
  message s4 !! 4%nat = Some 0x5f ∧
  message s5 !! 4%nat = Some 0x5b.
Proof.
  intros H0 s1 s2 s3 s4 s5 Ht1 Ht2 Ht3 Ht4 Ht5.
  assert (H1 : message s1 !! 4%nat = Some 0x5c)
    by (by apply (note_sent_step e1 s0 0x5b)).
  assert (H2 : message s2 !! 4%nat = Some 0x5d)
    by (by apply (note_sent_step e2 s1 0x5c)).
  assert (H3 : message s3 !! 4%nat = Some 0x5e)
    by (by apply (note_sent_step e3 s2 0x5d)).
  assert (H4 : message s4 !! 4%nat = Some 0x5f)
    by (by apply (note_sent_step e4 s3 0x5e)).
  assert (H5 : message s5 !! 4%nat = Some 0x5b)
    by (by apply (note_sent_step e5 s4 0x5f)).
  done.
Qed.

Lemma note_on_pointer_cycles_witness :
  (message init_state !! 4%nat = Some 0x5b ∧
   note_sent (accepted_at 1) init_state ∧
   note_sent (accepted_at 2) after_note_1 ∧
   note_sent (accepted_at 3) after_note_2 ∧
   note_sent (accepted_at 4) after_note_3 ∧
   note_sent (accepted_at 5) after_note_4) ∧
  message after_note_1 !! 4%nat = Some 0x5c ∧
  message after_note_2 !! 4%nat = Some 0x5d ∧
  message after_note_3 !! 4%nat = Some 0x5e ∧
  message after_note_4 !! 4%nat = Some 0x5f ∧
  message after_note_5 !! 4%nat = Some 0x5b.
Proof.
  assert (H0 : message init_state !! 4%nat = Some 0x5b) by reflexivity.
  assert (H1 : note_sent (accepted_at 1) init_state)
    by (vm_compute; repeat split; discriminate).
  assert (H2 : note_sent (accepted_at 2) after_note_1)
    by (vm_compute; repeat split; discriminate).
  assert (H3 : note_sent (accepted_at 3) after_note_2)
    by (vm_compute; repeat split; discriminate).
  assert (H4 : note_sent (accepted_at 4) after_note_3)
    by (vm_compute; repeat split; discriminate).
  assert (H5 : note_sent (accepted_at 5) after_note_4)
    by (vm_compute; repeat split; discriminate).
  split; [exact (conj H0 (conj H1 (conj H2 (conj H3 (conj H4 H5)))))|].
  exact (note_on_pointer_cycles init_state
           (accepted_at 1) (accepted_at 2) (accepted_at 3) (accepted_at 4)
           (accepted_at 5) H0 H1 H2 H3 H4 H5).
Defined.

(** C7.  When the stream write returns 0, [send_next_note] leaves [message]
    (hence both note bytes) as it was; the write that was attempted carried
    that same message, which is therefore offered again next time. *)
Theorem note_pointer_kept_on_zero_write
    (connected : bool) (e : note_env) (s : state) :
  nwritten e = 0 →
  message (send_next_note connected e s) = message s ∧
  (write_attempted connected e s →
   midi_calls (send_next_note connected e s)
   = StreamFlush (midi_dev_addr s)
       :: StreamWrite (midi_dev_addr s) (uint8 (tx_cables e - 1))
                      (message s) 0
       :: StreamFlush (midi_dev_addr s) :: midi_calls s).
Proof.
  intros Hnw. split.
  - destruct (send_next_note_message connected e s) as [H|(_ & Hne & _)];
      [done|]. by rewrite Hnw in Hne.
  - intros Hatt. rewrite send_next_note_attempted by done.
    rewrite Hnw. done.
Qed.

Lemma note_pointer_kept_on_zero_write_witness :
  (nwritten (refused_at 1) = 0 ∧ write_attempted true (refused_at 1) init_state) ∧
  message (send_next_note true (refused_at 1) init_state) = message init_state ∧
  midi_calls (send_next_note true (refused_at 1) init_state)
  = [ StreamFlush 0;
      StreamWrite 0 0 [0x90; 0x5f; 0x00; 0x90; 0x5b; 0x7f] 0;
      StreamFlush 0 ].
Proof.
  assert (H1 : nwritten (refused_at 1) = 0) by reflexivity.
  assert (H2 : write_attempted true (refused_at 1) init_state)
    by (vm_compute; repeat split; discriminate).
  split; [exact (conj H1 H2)|].
  destruct (note_pointer_kept_on_zero_write true (refused_at 1) init_state H1)
    as [Hm Hc].
  exact (conj Hm (Hc H2)).
Defined.

(** * Further properties *)

(** ** The receive loop *)

(** X1.  The receive loop returns at the first read that yields no bytes:
    whatever the driver would have answered afterwards plays no part. *)
Theorem rx_loop_stops_at_empty_read
    (before : list stream_read) (empty : stream_read)
    (after : list stream_read) (s : state) :
  rd_bytes_read empty = 0 →
  rx_loop (before ++ empty :: after) s = rx_loop before s.
Proof.
  intros Hempty. revert s.
  induction before as [|r before IH]; intros s; cbn [app rx_loop].
  - by rewrite Hempty.
  - destruct (rd_bytes_read r =? 0); [done|].
    destruct (rx_write _ _ _ s) as [s1|]; [|done]. cbn [mbind option_bind].
    destruct (read_bytes _ _) as [values|]; [|done]. cbn [mbind option_bind].
    apply IH.
Qed.

Lemma rx_loop_stops_at_empty_read_witness :
  rd_bytes_read empty_read = 0 ∧
  rx_loop ([sample_read] ++ empty_read :: [sample_read_off]) ready_state
  = rx_loop [sample_read] ready_state.
Proof.
  assert (H : rd_bytes_read empty_read = 0) by reflexivity.
  exact (conj H (rx_loop_stops_at_empty_read
                   [sample_read] empty_read [sample_read_off] ready_state H)).
Defined.

Lemma rx_loop_app before after s :
  Forall (λ r, rd_bytes_read r ≠ 0) before →
  rx_loop (before ++ after) s = (s1 ← rx_loop before s; rx_loop after s1).
Proof.
  intros Hne. revert s.
  induction Hne as [|r before Hr _ IH]; intros s; cbn [app rx_loop]; [done|].
  destruct (Z.eqb_spec (rd_bytes_read r) 0); [done|].
  destruct (rx_write _ _ _ s) as [s1|]; [|done]. cbn [mbind option_bind].
  destruct (read_bytes _ _) as [values|]; [|done]. cbn [mbind option_bind].
  apply IH.
Qed.

(** One read that fits the buffer and is not empty. *)
Lemma rx_loop_one r s :
  length (out_buf s) = Z.to_nat SPI_BUFFER_LEN →
  stream_read_fits RX_BUFFER_SIZE r → rd_bytes_read r ≠ 0 →
  rx_loop [r] s
  = Some (printf (PrBytesRead (rd_cable_num r) (rd_bytes_read r)
                    (take (Z.to_nat (rd_bytes_read r)) (rd_buffer r)))
            (count_frame_write
               (set_out_buf
                  (stored_frame (out_buf s) (rd_bytes_read r) (rd_buffer r))
                  s))).
Proof.
  unfold stream_read_fits, RX_BUFFER_SIZE. intros Hlen [Hbuf Hn] Hne.
  cbn [rx_loop]. destruct (Z.eqb_spec (rd_bytes_read r) 0); [done|].
  rewrite rx_write_fits by (unfold SPI_BUFFER_LEN; (done || lia)).
  cbn [mbind option_bind]. unfold read_bytes.
  case_decide; [done | lia].
Qed.

(** X2.  When every read of one callback fits the receive buffer and yields
    bytes, the loop copies each of them into the frame, one copy per read;
    what the frame holds in the end is the last read, with its length, and
    the fingerprint is untouched. *)
Theorem rx_loop_copies_each_read_and_keeps_last
    (earlier : list stream_read) (last : stream_read) (s : state) :
  length (out_buf s) = Z.to_nat SPI_BUFFER_LEN →
  Forall (stream_read_fits RX_BUFFER_SIZE) (earlier ++ [last]) →
  Forall (λ r, rd_bytes_read r ≠ 0) (earlier ++ [last]) →
  ∃ s',
    rx_loop (earlier ++ [last]) s = Some s' ∧
    frame_writes s' = (frame_writes s + length (earlier ++ [last]))%nat ∧
    length (out_buf s') = Z.to_nat SPI_BUFFER_LEN ∧
    fingerprint (out_buf s') = fingerprint (out_buf s) ∧
    payload_length (out_buf s') = rd_bytes_read last ∧
    payload (out_buf s')
    = take (Z.to_nat (rd_bytes_read last)) (rd_buffer last).
Proof.
  intros Hlen Hfits Hne.
  apply Forall_app in Hfits as [Hfits Hlast].
  apply Forall_app in Hne as [Hne Hlast_ne].
  rewrite Forall_singleton in Hlast, Hlast_ne.
  rewrite rx_loop_app by done.
  assert (Hearlier : ∃ s1,
    rx_loop earlier s = Some s1 ∧
    frame_writes s1 = (frame_writes s + length earlier)%nat ∧
    length (out_buf s1) = Z.to_nat SPI_BUFFER_LEN ∧
    fingerprint (out_buf s1) = fingerprint (out_buf s)).
  { clear Hlast Hlast_ne. revert s Hlen.
    induction earlier as [|r earlier IH]; intros s Hlen.
    - exists s. cbn [rx_loop length]. repeat split; (done || lia).
    - apply Forall_cons_1 in Hfits as [Hr Hfits].
      apply Forall_cons_1 in Hne as [Hr_ne Hne].
      change (r :: earlier) with ([r] ++ earlier).
      rewrite rx_loop_app by (by apply Forall_singleton).
      rewrite rx_loop_one by done. cbn [mbind option_bind].
      set (s1 := printf _ _).
      destruct Hr as [Hbuf Hn]. unfold RX_BUFFER_SIZE in *.
      destruct (IH Hfits Hne s1) as (s2 & Hloop & Hfw & Hlen2 & Hfp).
      { unfold s1. cbn [out_buf printf count_frame_write set_out_buf].
        apply stored_frame_length; unfold SPI_BUFFER_LEN in *; (done || lia). }
      exists s2. split; [done|]. split.
      { rewrite Hfw. unfold s1.
        cbn [frame_writes printf count_frame_write set_out_buf length app].
        lia. }
      split; [done|]. rewrite Hfp. unfold s1.
      cbn [out_buf printf count_frame_write set_out_buf].
      apply stored_frame_fingerprint; unfold SPI_BUFFER_LEN in *; (done || lia). }
  destruct Hearlier as (s1 & -> & Hfw & Hlen1 & Hfp). cbn [mbind option_bind].
  rewrite rx_loop_one by done.
  destruct Hlast as [Hbuf Hn]. unfold RX_BUFFER_SIZE in *.
  assert (Hn' : 0 ≤ rd_bytes_read last ≤ SPI_BUFFER_LEN - 3)
    by (unfold SPI_BUFFER_LEN; lia).
  assert (Hbuf' : (Z.to_nat (rd_bytes_read last) ≤ length (rd_buffer last))%nat)
    by lia.
  eexists. split; [done|].
  cbn [out_buf frame_writes printf count_frame_write set_out_buf].
  split; [rewrite Hfw, length_app; cbn [length]; lia|].
  split; [by apply stored_frame_length|].
  split; [rewrite <- Hfp; by apply stored_frame_fingerprint|].
  split; [by apply stored_frame_payload_length|].
  by apply stored_frame_payload.
Qed.

Lemma rx_loop_copies_each_read_and_keeps_last_witness :
  (length (out_buf ready_state) = Z.to_nat SPI_BUFFER_LEN ∧
   Forall (stream_read_fits RX_BUFFER_SIZE) ([sample_read] ++ [sample_read_off]) ∧
   Forall (λ r, rd_bytes_read r ≠ 0) ([sample_read] ++ [sample_read_off])) ∧
  ∃ s',
    rx_loop ([sample_read] ++ [sample_read_off]) ready_state = Some s' ∧
    frame_writes s'
    = (frame_writes ready_state
       + length ([sample_read] ++ [sample_read_off]))%nat ∧
    length (out_buf s') = Z.to_nat SPI_BUFFER_LEN ∧
    fingerprint (out_buf s') = fingerprint (out_buf ready_state) ∧
    payload_length (out_buf s') = rd_bytes_read sample_read_off ∧
    payload (out_buf s')
    = take (Z.to_nat (rd_bytes_read sample_read_off))
           (rd_buffer sample_read_off).
Proof.
  assert (H1 : length (out_buf ready_state) = Z.to_nat SPI_BUFFER_LEN)
    by (vm_compute; reflexivity).
  assert (H2 : Forall (stream_read_fits RX_BUFFER_SIZE)
                 ([sample_read] ++ [sample_read_off])) by compute_done.
  assert (H3 : Forall (λ r, rd_bytes_read r ≠ 0)
                 ([sample_read] ++ [sample_read_off])) by compute_done.
  split; [exact (conj H1 (conj H2 H3))|].
  exact (rx_loop_copies_each_read_and_keeps_last
           [sample_read] sample_read_off ready_state H1 H2 H3).
Defined.



(** ** Runs under a condition on the events *)

Lemma run_total_where (P : event → Prop) (Q : state → Prop) :
  (∀ ev s, P ev → Q s → ∃ s', step ev s = Some s' ∧ Q s') →
  ∀ evs s, Forall P evs → Q s → ∃ s', run evs s = Some s' ∧ Q s'.
Proof.
  intros Hstep evs s Hevs. revert s.
  induction Hevs as [|ev rest Hev _ IH]; intros s HQ; cbn [run].
  - by exists s.
  - destruct (Hstep ev s Hev HQ) as (s1 & -> & HQ1).
    cbn [mbind option_bind]. by apply IH.
Qed.

Lemma run_preserves_where (P : event → Prop) (Q : state → Prop) :
  (∀ ev s s', P ev → step ev s = Some s' → Q s → Q s') →
  ∀ evs s s', Forall P evs → run evs s = Some s' → Q s → Q s'.
Proof.
  intros Hstep evs s s' Hevs. revert s.
  induction Hevs as [|ev rest Hev _ IH]; intros s; cbn [run].
  - by intros [= <-].
  - destruct (step ev s) as [s1|] eqn:Hs; [|done].
    cbn [mbind option_bind]. intros Hrun HQ.
    apply (IH s1 Hrun). by eapply Hstep.
Qed.

(** A component of the state that neither printing nor the copy into the
    frame touches is left alone by the receive callback. *)
Lemma tuh_midi_rx_cb_other {X : Type} (f : state → X) :
  (∀ p s, f (printf p s) = f s) →
  (∀ ob s, f (count_frame_write (set_out_buf ob s)) = f s) →
  ∀ a n reads s s', tuh_midi_rx_cb a n reads s = Some s' → f s' = f s.
Proof.
  intros Hprintf Hcopy a n reads s s'. unfold tuh_midi_rx_cb.
  cbn [midi_dev_addr printf].
  repeat case_match; try (intros [= <-]; by rewrite Hprintf).
  intros Hloop. rewrite <- (Hprintf PrMidiCallback s).
  apply (rx_loop_preserves (λ s1, f s1 = f (printf PrMidiCallback s)))
    with reads (printf PrMidiCallback s); [| |done|done].
  - intros p s1 <-. apply Hprintf.
  - intros cable buffer m s1 s2 Hw <-.
    apply rx_write_cases in Hw as [[_ ->]|(_ & _ & _ & ->)];
      [apply Hprintf | apply Hcopy].
Qed.

(** ** The recorded device *)

Lemma step_keeps_device A ev s s' :
  A ≠ 0 → keeps_device A ev →
  step ev s = Some s' → midi_dev_addr s = A → midi_dev_addr s' = A.
Proof.
  intros HA Hev Hs Haddr.
  destruct ev as [gpio events|miso|a i o rx tx|a inst|a n reads|cfg e];
    cbn [step keeps_device] in *.
  - injection Hs as <-. rewrite <- Haddr. unfold ws_callback. by case_match.
  - injection Hs as <-. rewrite <- Haddr. unfold core1_iteration.
    by case_match.
  - injection Hs as <-. rewrite <- Haddr. apply mount_when_taken. by rewrite Haddr.
  - injection Hs as <-. rewrite <- Haddr. apply umount_other. by rewrite Haddr.
  - rewrite <- Haddr.
    by apply (tuh_midi_rx_cb_other midi_dev_addr) with a n reads.
  - injection Hs as <-. rewrite <- Haddr.
    unfold main_iteration, send_next_note. by repeat case_match.
Qed.

(** X4.  Once a device address [A] is recorded, it stays recorded through
    any events (further mounts, unmounts of other devices, data, clock
    edges, the main loop) until [A] itself is unmounted. *)
Theorem device_stays_until_unmounted
    (A : Z) (evs : list event) (s s' : state) :
  A ≠ 0 →
  midi_dev_addr s = A →
  Forall (keeps_device A) evs →
  run evs s = Some s' →
  midi_dev_addr s' = A.
Proof.
  intros HA Haddr Hevs Hrun.
  apply (run_preserves_where (keeps_device A) (λ s1, midi_dev_addr s1 = A))
    with evs s; [|done..].
  intros ev s1 s2 Hev Hs. by apply step_keeps_device with ev.
Qed.

Lemma device_stays_until_unmounted_witness :
  (1 ≠ 0 ∧ midi_dev_addr mounted_state = 1 ∧
   Forall (keeps_device 1) other_device_trace ∧
   run other_device_trace mounted_state = Some other_device_trace_end) ∧
  midi_dev_addr other_device_trace_end = 1.
Proof.
  assert (H1 : 1 ≠ 0) by lia.
  assert (H2 : midi_dev_addr mounted_state = 1) by reflexivity.
  assert (H3 : Forall (keeps_device 1) other_device_trace) by compute_done.
  assert (H4 : run other_device_trace mounted_state
               = Some other_device_trace_end) by (vm_compute; reflexivity).
  exact (conj (conj H1 (conj H2 (conj H3 H4)))
           (device_stays_until_unmounted
              1 other_device_trace mounted_state other_device_trace_end
              H1 H2 H3 H4)).
Defined.

(** The callback of a device other than the recorded one only prints. *)
Lemma tuh_midi_rx_cb_foreign a n reads s :
  a ≠ midi_dev_addr s →
  tuh_midi_rx_cb a n reads s = Some (printf PrMidiCallback s).
Proof.
  intros Ha. unfold tuh_midi_rx_cb. cbn [midi_dev_addr printf].
  destruct (Z.eqb_spec (midi_dev_addr s) a); [congruence | done].
Qed.

Lemma step_ignores_foreign A ev s :
  A ≠ 0 → keeps_device A ev → no_data_from A ev → midi_dev_addr s = A →
  ∃ s',
    step ev s = Some s' ∧
    midi_dev_addr s' = A ∧
    frame_writes s' = frame_writes s ∧
    (out_buf s' = out_buf s ∨ out_buf s' = <[2%nat:=0]> (out_buf s)).
Proof.
  intros HA Hkeep Hdata Haddr.
  assert (Hstay : ∀ s', step ev s = Some s' → midi_dev_addr s' = A)
    by (intros s' Hs; by apply step_keeps_device with ev s).
  destruct ev as [gpio events|miso|a i o rx tx|a inst|a n reads|cfg e];
    cbn [step keeps_device no_data_from] in *.
  - eexists. split; [done|]. split; [by apply Hstay|].
    destruct (ws_callback_frame gpio events s) as (-> & -> & _). auto.
  - eexists. split; [done|]. split; [by apply Hstay|].
    destruct (core1_iteration_frame miso s) as (-> & _ & Hob). done.
  - eexists. split; [done|]. split; [by apply Hstay|].
    destruct (tuh_midi_mount_cb_frame a i o rx tx s) as (-> & -> & _). auto.
  - eexists. split; [done|]. split; [by apply Hstay|].
    destruct (tuh_midi_umount_cb_frame a inst s) as (-> & -> & _). auto.
  - rewrite tuh_midi_rx_cb_foreign in * by congruence.
    eexists. split; [done|]. split; [by apply Hstay|]. auto.
  - eexists. split; [done|]. split; [by apply Hstay|]. unfold main_iteration.
    destruct (send_next_note_frame
                (negb (midi_dev_addr s =? 0) && cfg) e s) as (-> & -> & _).
    auto.
Qed.

(** X5.  While device [A] is recorded, callbacks for other devices never
    reach the frame, whatever their reads contain: the run is defined, no
    copy is made, and fingerprint and payload bytes of [out_buf] stay as
    they were. *)
Theorem data_of_other_devices_is_ignored
    (A : Z) (evs : list event) (s : state) :
  A ≠ 0 →
  midi_dev_addr s = A →
  Forall (keeps_device A) evs →
  Forall (no_data_from A) evs →
  ∃ s',
    run evs s = Some s' ∧
    midi_dev_addr s' = A ∧
    frame_writes s' = frame_writes s ∧
    fingerprint (out_buf s') = fingerprint (out_buf s) ∧
    drop 3 (out_buf s') = drop 3 (out_buf s).
Proof.
  intros HA Haddr Hkeep Hdata.
  assert (Hevs : Forall (λ ev, keeps_device A ev ∧ no_data_from A ev) evs)
    by (by apply Forall_and).
  apply (run_total_where
           (λ ev, keeps_device A ev ∧ no_data_from A ev)
           (λ s1, midi_dev_addr s1 = A ∧
                  frame_writes s1 = frame_writes s ∧
                  fingerprint (out_buf s1) = fingerprint (out_buf s) ∧
                  drop 3 (out_buf s1) = drop 3 (out_buf s)));
    [|done|done].
  intros ev s1 [Hk Hd] (Haddr1 & Hfw & Hfp & Hrest).
  destruct (step_ignores_foreign A ev s1 HA Hk Hd Haddr1)
    as (s2 & Hs & Haddr2 & Hfw2 & Hob).
  exists s2. split; [done|]. split; [done|]. split; [congruence|].
  destruct Hob as [-> | ->]; [done|].
  unfold fingerprint. by rewrite take_insert_ge, drop_insert_lt by lia.
Qed.

Lemma data_of_other_devices_is_ignored_witness :
  (1 ≠ 0 ∧ midi_dev_addr mounted_state = 1 ∧
   Forall (keeps_device 1) other_device_trace ∧
   Forall (no_data_from 1) other_device_trace) ∧
  ∃ s',
    run other_device_trace mounted_state = Some s' ∧
    midi_dev_addr s' = 1 ∧
    frame_writes s' = frame_writes mounted_state ∧
    fingerprint (out_buf s') = fingerprint (out_buf mounted_state) ∧
    drop 3 (out_buf s') = drop 3 (out_buf mounted_state).
Proof.
  assert (H1 : 1 ≠ 0) by lia.
  assert (H2 : midi_dev_addr mounted_state = 1) by reflexivity.
  assert (H3 : Forall (keeps_device 1) other_device_trace) by compute_done.
  assert (H4 : Forall (no_data_from 1) other_device_trace) by compute_done.
  exact (conj (conj H1 (conj H2 (conj H3 H4)))
           (data_of_other_devices_is_ignored
              1 other_device_trace mounted_state H1 H2 H3 H4)).
Defined.

(** With no device recorded and none being mounted, the main loop makes
    no call to the driver. *)
Lemma step_without_device ev s :
  is_mount ev = false → no_data_from 0 ev → midi_dev_addr s = 0 →
  ∃ s',
    step ev s = Some s' ∧
    midi_dev_addr s' = 0 ∧
    midi_calls s' = midi_calls s ∧
    frame_writes s' = frame_writes s.
Proof.
  intros Hmount Hdata Haddr.
  destruct ev as [gpio events|miso|a i o rx tx|a inst|a n reads|cfg e];
    cbn [step is_mount no_data_from] in *; try done.
  - eexists. split; [done|]. unfold ws_callback. by case_match.
  - eexists. split; [done|]. unfold core1_iteration. by case_match.
  - eexists. split; [done|]. unfold tuh_midi_umount_cb. by case_match.
  - rewrite tuh_midi_rx_cb_foreign by congruence. eexists. by split.
  - eexists. split; [done|]. unfold main_iteration, send_next_note.
    by rewrite Haddr.
Qed.

(** X6.  With no device recorded, none being mounted and no data callback
    made for address 0 (which the code compares equal to "no device"),
    nothing is copied into the frame and the main loop makes no call to the
    driver, whatever [tuh_midi_configured] answers. *)
Theorem nothing_is_sent_without_a_device (evs : list event) (s : state) :
  midi_dev_addr s = 0 →
  Forall (λ ev, is_mount ev = false) evs →
  Forall (no_data_from 0) evs →
  ∃ s',
    run evs s = Some s' ∧
    midi_dev_addr s' = 0 ∧
    midi_calls s' = midi_calls s ∧
    frame_writes s' = frame_writes s.
Proof.
  intros Haddr Hmount Hdata.
  assert (Hevs : Forall (λ ev, is_mount ev = false ∧ no_data_from 0 ev) evs)
    by (by apply Forall_and).
  apply (run_total_where
           (λ ev, is_mount ev = false ∧ no_data_from 0 ev)
           (λ s1, midi_dev_addr s1 = 0 ∧
                  midi_calls s1 = midi_calls s ∧
                  frame_writes s1 = frame_writes s));
    [|done|done].
  intros ev s1 [Hm Hd] (Haddr1 & Hcalls & Hfw).
  destruct (step_without_device ev s1 Hm Hd Haddr1)
    as (s2 & Hs & Haddr2 & Hcalls2 & Hfw2).
  exists s2. split; [done|]. split; [done|]. split; congruence.
Qed.

Lemma nothing_is_sent_without_a_device_witness :
  (midi_dev_addr (core1_setup init_state) = 0 ∧
   Forall (λ ev, is_mount ev = false) no_device_trace ∧
   Forall (no_data_from 0) no_device_trace) ∧
  ∃ s',
    run no_device_trace (core1_setup init_state) = Some s' ∧
    midi_dev_addr s' = 0 ∧
    midi_calls s' = midi_calls (core1_setup init_state) ∧
    frame_writes s' = frame_writes (core1_setup init_state).
Proof.
  assert (H1 : midi_dev_addr (core1_setup init_state) = 0) by reflexivity.
  assert (H2 : Forall (λ ev, is_mount ev = false) no_device_trace)
    by compute_done.
  assert (H3 : Forall (no_data_from 0) no_device_trace) by compute_done.
  exact (conj (conj H1 (conj H2 H3))
           (nothing_is_sent_without_a_device
              no_device_trace (core1_setup init_state) H1 H2 H3)).
Defined.

(** ** Transfers and the semaphore *)

(** What one event does to the semaphore, the count of releases and the
    frames sent. *)
Lemma step_transfer_budget ev s s' :
  step ev s = Some s' →
  (ws_semaphore s' = ws_semaphore s ∧ sem_releases s' = sem_releases s ∧
   spi_mosi s' = spi_mosi s) ∨
  (ws_semaphore s' = sem_release (ws_semaphore s) ∧
   sem_releases s' = S (sem_releases s) ∧ spi_mosi s' = spi_mosi s) ∨
  (0 < permits (ws_semaphore s) ∧
   ws_semaphore s'
   = Sem (permits (ws_semaphore s) - 1) (max_permits (ws_semaphore s)) ∧
   sem_releases s' = sem_releases s ∧
   spi_mosi s' = take (Z.to_nat SPI_BUFFER_LEN) (out_buf s) :: spi_mosi s).
Proof.
  destruct ev as [gpio events|miso|a i o rx tx|a inst|a n reads|cfg e];
    cbn [step].
  - intros [= <-]. unfold ws_callback. case_match; [right; left | left]; done.
  - intros [= <-].
    destruct (Z.lt_ge_cases 0 (permits (ws_semaphore s))) as [Hp|Hp].
    + rewrite core1_iteration_permit by done. right; right. done.
    + rewrite core1_iteration_blocked by lia. by left.
  - intros [= <-]. left. unfold tuh_midi_mount_cb. by case_match.
  - intros [= <-]. left. unfold tuh_midi_umount_cb. by case_match.
  - intros Hrx. left.
    pose proof (tuh_midi_rx_cb_other
                  (λ s, (ws_semaphore s, sem_releases s, spi_mosi s))
                  (λ _ _, eq_refl) (λ _ _, eq_refl) _ _ _ _ _ Hrx) as [= -> -> ->].
    done.
  - intros [= <-]. left. unfold main_iteration, send_next_note.
    by repeat case_match.
Qed.

(** X7.  With the semaphore initialised to at most one permit, it never
    holds more than one, and core 1 never sends more frames than permits
    were there plus releases made since: frames sent plus permits pending
    grow no faster than the count of releases. *)
Theorem transfers_are_bounded_by_releases
    (evs : list event) (s s' : state) :
  max_permits (ws_semaphore s) = 1 →
  0 ≤ permits (ws_semaphore s) ≤ 1 →
  run evs s = Some s' →
  max_permits (ws_semaphore s') = 1 ∧
  0 ≤ permits (ws_semaphore s') ≤ 1 ∧
  Z.of_nat (length (spi_mosi s')) + permits (ws_semaphore s')
    + Z.of_nat (sem_releases s)
  ≤ Z.of_nat (length (spi_mosi s)) + permits (ws_semaphore s)
    + Z.of_nat (sem_releases s').
Proof.
  intros Hmax Hp Hrun.
  apply (run_preserves
           (λ s1, max_permits (ws_semaphore s1) = 1 ∧
                  0 ≤ permits (ws_semaphore s1) ≤ 1 ∧
                  Z.of_nat (length (spi_mosi s1)) + permits (ws_semaphore s1)
                    + Z.of_nat (sem_releases s)
                  ≤ Z.of_nat (length (spi_mosi s)) + permits (ws_semaphore s)
                    + Z.of_nat (sem_releases s1)))
    with evs s; [|done|lia].
  clear. intros ev s1 s2 Hs (Hmax & Hp & Hle).
  destruct (step_transfer_budget ev s1 s2 Hs)
    as [(-> & -> & ->)|[(-> & -> & ->)|(Hpos & -> & -> & ->)]].
  - done.
  - unfold sem_release. rewrite Hmax.
    destruct (Z.ltb_spec (permits (ws_semaphore s1)) 1);
      cbn [permits max_permits]; lia.
  - cbn [permits max_permits length]. lia.
Qed.

Lemma transfers_are_bounded_by_releases_witness :
  (max_permits (ws_semaphore (core1_setup init_state)) = 1 ∧
   0 ≤ permits (ws_semaphore (core1_setup init_state)) ≤ 1 ∧
   run sample_trace (core1_setup init_state) = Some sample_trace_final) ∧
  max_permits (ws_semaphore sample_trace_final) = 1 ∧
  0 ≤ permits (ws_semaphore sample_trace_final) ≤ 1 ∧
  Z.of_nat (length (spi_mosi sample_trace_final))
    + permits (ws_semaphore sample_trace_final)
    + Z.of_nat (sem_releases (core1_setup init_state))
  ≤ Z.of_nat (length (spi_mosi (core1_setup init_state)))
    + permits (ws_semaphore (core1_setup init_state))
    + Z.of_nat (sem_releases sample_trace_final).
Proof.
  assert (H1 : max_permits (ws_semaphore (core1_setup init_state)) = 1)
    by reflexivity.
  assert (H2 : 0 ≤ permits (ws_semaphore (core1_setup init_state)) ≤ 1)
    by (vm_compute; split; discriminate).
  assert (H3 : run sample_trace (core1_setup init_state)
               = Some sample_trace_final) by (vm_compute; reflexivity).
  exact (conj (conj H1 (conj H2 H3))
           (transfers_are_bounded_by_releases
              sample_trace (core1_setup init_state) sample_trace_final
              H1 H2 H3)).
Defined.

Lemma rx_loop_preserves_where (P : stream_read → Prop) (Q : state → Prop) :
  (∀ p s, Q s → Q (printf p s)) →
  (∀ r s s', P r →
     rx_write (rd_cable_num r) (rd_buffer r) (rd_bytes_read r) s = Some s' →
     Q s → Q s') →
  ∀ reads s s', Forall P reads → rx_loop reads s = Some s' → Q s → Q s'.
Proof.
  intros Hprintf Hwrite reads s s' Hreads. revert s.
  induction Hreads as [|r rest Hr _ IH]; intros s; cbn [rx_loop].
  - by intros [= <-].
  - destruct (rd_bytes_read r =? 0); [by intros [= <-]|].
    destruct (rx_write _ _ _ s) as [s1|] eqn:Hw; [|done].
    cbn [mbind option_bind].
    destruct (read_bytes _ _) as [values|]; [|done].
    cbn [mbind option_bind].
    intros Hloop HQ. apply (IH _ Hloop). apply Hprintf. by eapply Hwrite.
Qed.

(** What [out_buf] has to satisfy for the next frame to be well formed. *)
Lemma rx_write_well_formed cable buffer n s s' :
  0 ≤ n →
  rx_write cable buffer n s = Some s' →
  well_formed_frame (out_buf s) → well_formed_frame (out_buf s').
Proof.
  intros Hn Hw (Hlen & Hfp & Hpl).
  apply rx_write_cases in Hw as Hcases.
  destruct Hcases as [[_ ->]|(Hle & Hbuf & _ & _)]; [done|].
  rewrite rx_write_fits in Hw by (done || lia).
  injection Hw as <-. cbn [out_buf count_frame_write set_out_buf].
  split; [apply stored_frame_length; (done || lia)|].
  split; [rewrite stored_frame_fingerprint by (done || lia); done|].
  rewrite stored_frame_payload_length by (done || lia). lia.
Qed.

Lemma step_well_formed s0 ev s s' :
  reads_unsigned ev →
  step ev s = Some s' →
  well_formed_frame (out_buf s) ∧
  (∃ new, spi_mosi s = new ++ spi_mosi s0 ∧ Forall well_formed_frame new) →
  well_formed_frame (out_buf s') ∧
  (∃ new, spi_mosi s' = new ++ spi_mosi s0 ∧ Forall well_formed_frame new).
Proof.
  intros Hev Hs [Hwf (new & Hnew & Hall)].
  destruct ev as [gpio events|miso|a i o rx tx|a inst|a n reads|cfg e];
    cbn [step reads_unsigned] in *.
  - injection Hs as <-.
    destruct (ws_callback_frame gpio events s) as (-> & _ & _).
    split; [done|]. exists new. split; [|done]. rewrite <- Hnew.
    unfold ws_callback. by case_match.
  - injection Hs as <-.
    destruct (Z.lt_ge_cases 0 (permits (ws_semaphore s))) as [Hp|Hp].
    + rewrite core1_iteration_permit by done.
      cbn [core1_transfer spi_write_read_blocking out_buf spi_mosi
           set_out_buf set_in_buf clock_out set_ws_semaphore].
      destruct Hwf as (Hlen & Hfp & Hpl). split.
      * split; [by rewrite length_insert|].
        split; [unfold fingerprint in *; by rewrite take_insert_ge by lia|].
        unfold payload_length, SPI_BUFFER_LEN in *.
        rewrite list_lookup_total_insert_eq by lia. lia.
      * exists (out_buf s :: new). rewrite Hnew, take_ge by lia.
        split; [done|]. by apply Forall_cons.
    + rewrite core1_iteration_blocked by lia. split; [done|]. by exists new.
  - injection Hs as <-.
    destruct (tuh_midi_mount_cb_frame a i o rx tx s) as (-> & _ & _).
    split; [done|]. exists new. split; [|done]. rewrite <- Hnew.
    unfold tuh_midi_mount_cb. by case_match.
  - injection Hs as <-.
    destruct (tuh_midi_umount_cb_frame a inst s) as (-> & _ & _).
    split; [done|]. exists new. split; [|done]. rewrite <- Hnew.
    unfold tuh_midi_umount_cb. by case_match.
  - split.
    + revert Hs. unfold tuh_midi_rx_cb. cbn [midi_dev_addr printf].
      repeat case_match; try (by intros [= <-]).
      intros Hloop.
      apply (rx_loop_preserves_where (λ r, 0 ≤ rd_bytes_read r)
               (λ s1, well_formed_frame (out_buf s1)))
        with reads (printf PrMidiCallback s) s' in Hloop; try done.
      intros r s1 s2 Hr Hw. by apply rx_write_well_formed with (2:=Hw).
    + exists new. split; [|done]. rewrite <- Hnew.
      apply (tuh_midi_rx_cb_other spi_mosi) with a n reads; done.
  - injection Hs as <-.
    destruct (send_next_note_frame
                (negb (midi_dev_addr s =? 0) && cfg) e s) as (Hob & _ & _).
    unfold main_iteration. rewrite Hob.
    split; [done|]. exists new. split; [|done]. rewrite <- Hnew.
    unfold send_next_note. by repeat case_match.
Qed.

(** X8.  Every frame clocked out after core 1 has set up is well formed: it
    has 64 bytes, starts with 0xCA 0xFE, and its length byte lies between 0
    and 61, provided the length byte did so at the start and the stream
    read returns unsigned values. *)
Theorem every_frame_sent_is_well_formed
    (s : state) (evs : list event) (s' : state) :
  length (out_buf s) = Z.to_nat SPI_BUFFER_LEN →
  0 ≤ payload_length (out_buf s) ≤ SPI_BUFFER_LEN - 3 →
  Forall reads_unsigned evs →
  run evs (core1_setup s) = Some s' →
  well_formed_frame (out_buf s') ∧
  ∃ new, spi_mosi s' = new ++ spi_mosi s ∧ Forall well_formed_frame new.
Proof.
  intros Hlen Hpl Hevs Hrun.
  apply (run_preserves_where reads_unsigned
           (λ s1, well_formed_frame (out_buf s1) ∧
                  ∃ new, spi_mosi s1 = new ++ spi_mosi s ∧
                         Forall well_formed_frame new))
    with evs (core1_setup s); [|done|done|].
  - intros ev s1 s2 Hev Hs. by apply step_well_formed with ev.
  - split.
    + split; [by rewrite core1_setup_out_buf, !length_insert|].
      split; [apply core1_setup_fingerprint; unfold SPI_BUFFER_LEN in *; lia|].
      unfold payload_length in *. rewrite core1_setup_out_buf.
      by rewrite !list_lookup_total_insert_ne by done.
    + by exists [].
Qed.

Lemma every_frame_sent_is_well_formed_witness :
  (length (out_buf init_state) = Z.to_nat SPI_BUFFER_LEN ∧
   0 ≤ payload_length (out_buf init_state) ≤ SPI_BUFFER_LEN - 3 ∧
   Forall reads_unsigned sample_trace ∧
   run sample_trace (core1_setup init_state) = Some sample_trace_final) ∧
  well_formed_frame (out_buf sample_trace_final) ∧
  ∃ new,
    spi_mosi sample_trace_final = new ++ spi_mosi init_state ∧
    Forall well_formed_frame new.
Proof.
  assert (H1 : length (out_buf init_state) = Z.to_nat SPI_BUFFER_LEN)
    by reflexivity.
  assert (H2 : 0 ≤ payload_length (out_buf init_state) ≤ SPI_BUFFER_LEN - 3)
    by (vm_compute; split; discriminate).
  assert (H3 : Forall reads_unsigned sample_trace) by compute_done.
  assert (H4 : run sample_trace (core1_setup init_state)
               = Some sample_trace_final) by (vm_compute; reflexivity).
  exact (conj (conj H1 (conj H2 (conj H3 H4)))
           (every_frame_sent_is_well_formed
              init_state sample_trace sample_trace_final H1 H2 H3 H4)).
Defined.

(** ** The decimator inside a trace *)

Lemma step_decimator ev s s' :
  is_edge ev = false → step ev s = Some s' →
  div s' = div s ∧ sem_releases s' = sem_releases s.
Proof.
  destruct ev as [gpio events|miso|a i o rx tx|a inst|a n reads|cfg e];
    cbn [step is_edge]; intros Hedge; try done.
  - intros [= <-]. unfold core1_iteration. by case_match.
  - intros [= <-]. unfold tuh_midi_mount_cb. by case_match.
  - intros [= <-]. unfold tuh_midi_umount_cb. by case_match.
  - intros Hrx.
    pose proof (tuh_midi_rx_cb_other (λ s, (div s, sem_releases s))
                  (λ _ _, eq_refl) (λ _ _, eq_refl) _ _ _ _ _ Hrx) as [= -> ->].
    done.
  - intros [= <-]. unfold main_iteration, send_next_note.
    by repeat case_match.
Qed.

Lemma run_decimator evs s s' (r0 : nat) :
  (r0 < 32)%nat → div s = 32 - Z.of_nat r0 →
  run evs s = Some s' →
  ∃ q r : nat,
    (r0 + edge_count evs = q * 32 + r)%nat ∧ (r < 32)%nat ∧
    div s' = 32 - Z.of_nat r ∧
    sem_releases s' = (sem_releases s + q)%nat.
Proof.
  revert s r0. induction evs as [|ev rest IH]; intros s r0 Hr0 Hdiv;
    cbn [run].
  - intros [= <-]. exists 0%nat, r0. unfold edge_count. cbn. lia.
  - destruct (step ev s) as [s1|] eqn:Hs; [|done].
    cbn [mbind option_bind]. intros Hrun.
    destruct (is_edge ev) eqn:Hedge.
    + destruct ev as [gpio events| | | | |]; try done.
      cbn [step] in Hs. injection Hs as <-.
      assert (Hrange : 1 ≤ div s ≤ 32) by lia.
      destruct (ws_callback_counts gpio events s Hrange) as [Hwrap Hnext].
      assert (Hcount : edge_count (WsEdge gpio events :: rest)
                       = S (edge_count rest)) by done.
      rewrite Hcount.
      destruct (decide (div s = 1)) as [H1|H1].
      * destruct (Hwrap H1) as (Hd & Hrel & _).
        assert (Hr1 : (0 < 32)%nat) by lia.
        destruct (IH _ 0%nat Hr1 Hd Hrun) as (q & r & Hq & Hr & Hd' & Hrel').
        exists (S q), r. rewrite Hrel', Hrel. repeat split; (done || lia).
      * destruct (Hnext H1) as (Hd & Hrel & _).
        assert (Hr1 : (S r0 < 32)%nat) by lia.
        assert (Hd1 : div (ws_callback gpio events s) = 32 - Z.of_nat (S r0))
          by lia.
        destruct (IH _ (S r0) Hr1 Hd1 Hrun)
          as (q & r & Hq & Hr & Hd' & Hrel').
        exists q, r. rewrite Hrel', Hrel. repeat split; (done || lia).
    + destruct (step_decimator ev s s1 Hedge Hs) as [Hd Hrel].
      assert (Hcount : edge_count (ev :: rest) = edge_count rest)
        by (unfold edge_count; cbn [List.filter]; by rewrite Hedge).
      rewrite Hcount.
      assert (Hd1 : div s1 = 32 - Z.of_nat r0) by lia.
      destruct (IH s1 r0 Hr0 Hd1 Hrun) as (q & r & Hq & Hr & Hd' & Hrel').
      exists q, r. rewrite Hrel', Hrel. done.
Qed.

(** X9.  No other event disturbs the decimator: in any trace that contains
    [q * 32 + r] word-clock edges ([r < 32]), starting with the counter at
    32, exactly [q] releases are made and the counter ends at [32 - r]. *)
Theorem releases_count_edges_in_any_trace
    (evs : list event) (s s' : state) (q r : nat) :
  div s = 32 →
  run evs s = Some s' →
  edge_count evs = (q * 32 + r)%nat → (r < 32)%nat →
  sem_releases s' = (sem_releases s + q)%nat ∧
  div s' = 32 - Z.of_nat r.
Proof.
  intros Hdiv Hrun Hcount Hr.
  assert (H0 : (0 < 32)%nat) by lia.
  destruct (run_decimator evs s s' 0%nat H0 Hdiv Hrun)
    as (q' & r' & Hq' & Hr' & Hd & Hrel).
  assert (q' = q ∧ r' = r) as [-> ->] by lia. done.
Qed.

Lemma releases_count_edges_in_any_trace_witness :
  (div (core1_setup init_state) = 32 ∧
   run sample_trace (core1_setup init_state) = Some sample_trace_final ∧
   edge_count sample_trace = (1 * 32 + 0)%nat ∧ (0 < 32)%nat) ∧
  sem_releases sample_trace_final
  = (sem_releases (core1_setup init_state) + 1)%nat ∧
  div sample_trace_final = 32 - Z.of_nat 0.
Proof.
  assert (H1 : div (core1_setup init_state) = 32) by reflexivity.
  assert (H2 : run sample_trace (core1_setup init_state)
               = Some sample_trace_final) by (vm_compute; reflexivity).
  assert (H3 : edge_count sample_trace = (1 * 32 + 0)%nat)
    by (vm_compute; reflexivity).
  assert (H4 : (0 < 32)%nat) by lia.
  exact (conj (conj H1 (conj H2 (conj H3 H4)))
           (releases_count_edges_in_any_trace
              sample_trace (core1_setup init_state) sample_trace_final 1 0
              H1 H2 H3 H4)).
Defined.

(** ** Transfers without a write in between *)

Lemma rx_loop_still reads s s' :
  rx_loop reads s = Some s' →
  (frame_writes s ≤ frame_writes s')%nat ∧
  (frame_writes s' = frame_writes s → out_buf s' = out_buf s).
Proof.
  intros Hloop.
  apply (rx_loop_preserves
           (λ s1, (frame_writes s ≤ frame_writes s1)%nat ∧
                  (frame_writes s1 = frame_writes s → out_buf s1 = out_buf s)))
    with reads s; [done| |done|done].
  intros cable buffer n s1 s2 Hw [Hle Hsame].
  apply rx_write_cases in Hw as [[_ ->]|(_ & _ & _ & ->)]; [done|].
  cbn [frame_writes count_frame_write set_out_buf]. split; lia.
Qed.

Lemma step_still ev s s' :
  step ev s = Some s' →
  (frame_writes s ≤ frame_writes s')%nat ∧
  (frame_writes s' = frame_writes s →
   out_buf s' = out_buf s ∨ out_buf s' = <[2%nat:=0]> (out_buf s)).
Proof.
  destruct ev as [gpio events|miso|a i o rx tx|a inst|a n reads|cfg e];
    cbn [step].
  - intros [= <-]. destruct (ws_callback_frame gpio events s) as (-> & -> & _).
    auto.
  - intros [= <-]. destruct (core1_iteration_frame miso s) as (-> & _ & Hob).
    auto.
  - intros [= <-].
    destruct (tuh_midi_mount_cb_frame a i o rx tx s) as (-> & -> & _). auto.
  - intros [= <-].
    destruct (tuh_midi_umount_cb_frame a inst s) as (-> & -> & _). auto.
  - unfold tuh_midi_rx_cb. cbn [midi_dev_addr printf].
    repeat case_match; try (intros [= <-]; by auto).
    intros [Hle Hsame]%rx_loop_still. split; [done|]. intros Heq. left.
    by apply Hsame.
  - intros [= <-]. unfold main_iteration.
    destruct (send_next_note_frame
                (negb (midi_dev_addr s =? 0) && cfg) e s) as (-> & -> & _).
    auto.
Qed.

Lemma run_still evs s s' :
  run evs s = Some s' →
  (frame_writes s ≤ frame_writes s')%nat ∧
  (frame_writes s' = frame_writes s →
   <[2%nat:=0]> (out_buf s') = <[2%nat:=0]> (out_buf s)).
Proof.
  intros Hrun.
  apply (run_preserves
           (λ s1, (frame_writes s ≤ frame_writes s1)%nat ∧
                  (frame_writes s1 = frame_writes s →
                   <[2%nat:=0]> (out_buf s1) = <[2%nat:=0]> (out_buf s))))
    with evs s; [|done|done].
  clear. intros ev s1 s2 Hs [Hle Hsame].
  destruct (step_still ev s1 s2 Hs) as [Hle2 Hstep].
  split; [lia|]. intros Heq.
  rewrite <- Hsame by lia.
  destruct Hstep as [-> | ->]; [lia|done|].
  by rewrite list_insert_insert_eq.
Qed.

(** X10.  A transfer sends [out_buf] as it is and clears only the length
    byte.  If nothing is copied into the frame before the next transfer,
    that one sends the same bytes again with length 0: old payload bytes
    stay on the wire, marked as empty. *)
Theorem idle_transfer_repeats_bytes_with_length_zero
    (s : state) (miso1 : list Z) (evs : list event) (s' : state)
    (miso2 : list Z) :
  length (out_buf s) = Z.to_nat SPI_BUFFER_LEN →
  run evs (core1_transfer miso1 s) = Some s' →
  frame_writes s' = frame_writes s →
  head (spi_mosi (core1_transfer miso1 s)) = Some (out_buf s) ∧
  head (spi_mosi (core1_transfer miso2 s'))
  = Some (<[2%nat:=0]> (out_buf s)).
Proof.
  intros Hlen Hrun Hfw.
  assert (Hob1 : out_buf (core1_transfer miso1 s) = <[2%nat:=0]> (out_buf s))
    by done.
  assert (Hfw1 : frame_writes (core1_transfer miso1 s) = frame_writes s)
    by done.
  assert (Hfw' : frame_writes s' = frame_writes (core1_transfer miso1 s))
    by congruence.
  destruct (run_still _ _ _ Hrun) as [_ Hsame]. specialize (Hsame Hfw').
  destruct (run_quiet _ _ _ Hrun) as [_ Hzero]. specialize (Hzero Hfw').
  destruct (run_header _ _ _ Hrun) as [Hlen' _].
  rewrite Hob1 in Hsame, Hzero, Hlen'.
  rewrite list_insert_insert_eq in Hsame. rewrite length_insert in Hlen'.
  assert (Hob' : out_buf s' = <[2%nat:=0]> (out_buf s)).
  { rewrite <- Hsame. symmetry. apply list_insert_id.
    apply Hzero. apply list_lookup_insert_eq.
    unfold SPI_BUFFER_LEN in *. lia. }
  cbn [core1_transfer spi_write_read_blocking out_buf spi_mosi
       set_out_buf set_in_buf clock_out head].
  rewrite Hob', !take_ge by (rewrite ?length_insert; lia). done.
Qed.

Lemma idle_transfer_repeats_bytes_with_length_zero_witness :
  (length (out_buf ready_state) = Z.to_nat SPI_BUFFER_LEN ∧
   run idle_trace (core1_transfer idle_miso ready_state)
   = Some idle_transfer_end ∧
   frame_writes idle_transfer_end = frame_writes ready_state) ∧
  head (spi_mosi (core1_transfer idle_miso ready_state))
  = Some (out_buf ready_state) ∧
  head (spi_mosi (core1_transfer idle_miso idle_transfer_end))
  = Some (<[2%nat:=0]> (out_buf ready_state)).
Proof.
  assert (H1 : length (out_buf ready_state) = Z.to_nat SPI_BUFFER_LEN)
    by (vm_compute; reflexivity).
  assert (H2 : run idle_trace (core1_transfer idle_miso ready_state)
               = Some idle_transfer_end) by (vm_compute; reflexivity).
  assert (H3 : frame_writes idle_transfer_end = frame_writes ready_state)
    by (vm_compute; reflexivity).
  exact (conj (conj H1 (conj H2 H3))
           (idle_transfer_repeats_bytes_with_length_zero
              ready_state idle_miso idle_trace idle_transfer_end idle_miso
              H1 H2 H3)).
Defined.

(** ** The note sequencer inside a trace *)

(** The three ways a call of [send_next_note] can go. *)
Lemma send_next_note_cases connected e s :
  send_next_note connected e s = s ∨
  send_next_note connected e s
  = midi_call_made (StreamFlush (midi_dev_addr s)) s ∨
  (write_attempted connected e s ∧
   start_ms (send_next_note connected e s) = uint32 (start_ms s + interval_ms) ∧
   midi_calls (send_next_note connected e s)
   = StreamFlush (midi_dev_addr s)
       :: StreamWrite (midi_dev_addr s) (uint8 (tx_cables e - 1))
                      (message s) (uint32 (0 + nwritten e))
       :: StreamFlush (midi_dev_addr s) :: midi_calls s).
Proof.
  unfold send_next_note, write_attempted.
  destruct connected; cbn [negb orb]; [|by left].
  destruct (Z.ltb_spec (tx_cables_guard e) 1); [by left|].
  cbn [start_ms midi_call_made].
  destruct (Z.ltb_spec (uint32 (now_ms e - start_ms s)) interval_ms);
    [right; by left|].
  right; right. split; [done|]. by case_match.
Qed.

Lemma step_message ev s s' :
  step ev s = Some s' →
  message s' = message s ∨ message s' = advance_notes (message s).
Proof.
  destruct ev as [gpio events|miso|a i o rx tx|a inst|a n reads|cfg e];
    cbn [step].
  - intros [= <-]. left. unfold ws_callback. by case_match.
  - intros [= <-]. left. unfold core1_iteration. by case_match.
  - intros [= <-]. left. unfold tuh_midi_mount_cb. by case_match.
  - intros [= <-]. left. unfold tuh_midi_umount_cb. by case_match.
  - intros Hrx. left.
    by apply (tuh_midi_rx_cb_other message) with a n reads.
  - intros [= <-]. unfold main_iteration.
    destruct (send_next_note_message
                (negb (midi_dev_addr s =? 0) && cfg) e s) as [H|(_ & _ & H)];
      auto.
Qed.

Lemma advance_notes_cycle m : m ∈ note_cycle → advance_notes m ∈ note_cycle.
Proof.
  unfold note_cycle. rewrite !elem_of_cons, elem_of_nil.
  intros [->|[->|[->|[->|[->|[]]]]]]; vm_compute; auto 10.
Qed.

Lemma note_cycle_shape m :
  m ∈ note_cycle →
  ∃ on off,
    m = [0x90; off; 0x00; 0x90; on; 0x7f] ∧
    first_note ≤ on ≤ last_note ∧
    off = (if on =? first_note then last_note else on - 1).
Proof.
  unfold note_cycle. rewrite !elem_of_cons, elem_of_nil.
  intros [->|[->|[->|[->|[->|[]]]]]]; eexists _, _; (split; [reflexivity|]);
    vm_compute; (split; [split; discriminate | reflexivity]).
Qed.

(** X11.  Through any events the note message stays one of the five of the
    cycle: note-off (velocity 0) and note-on (velocity 0x7f) on status
    0x90, the note-on note within [first_note .. last_note] and the
    note-off note the one before it in the cycle. *)
Theorem note_message_keeps_its_shape
    (evs : list event) (s s' : state) :
  message s ∈ note_cycle →
  run evs s = Some s' →
  message s' ∈ note_cycle ∧
  ∃ on off,
    message s' = [0x90; off; 0x00; 0x90; on; 0x7f] ∧
    first_note ≤ on ≤ last_note ∧
    off = (if on =? first_note then last_note else on - 1).
Proof.
  intros Hs Hrun.
  assert (Hs' : message s' ∈ note_cycle).
  { apply (run_preserves (λ s1, message s1 ∈ note_cycle)) with evs s;
      [|done|done].
    intros ev s1 s2 Hstep Hs1.
    destruct (step_message ev s1 s2 Hstep) as [-> | ->];
      [done | by apply advance_notes_cycle]. }
  split; [done|]. by apply note_cycle_shape.
Qed.

Lemma note_message_keeps_its_shape_witness :
  (message (core1_setup init_state) ∈ note_cycle ∧
   run sample_trace (core1_setup init_state) = Some sample_trace_final) ∧
  message sample_trace_final ∈ note_cycle ∧
  ∃ on off,
    message sample_trace_final = [0x90; off; 0x00; 0x90; on; 0x7f] ∧
    first_note ≤ on ≤ last_note ∧
    off = (if on =? first_note then last_note else on - 1).
Proof.
  assert (H1 : message (core1_setup init_state) ∈ note_cycle) by compute_done.
  assert (H2 : run sample_trace (core1_setup init_state)
               = Some sample_trace_final) by (vm_compute; reflexivity).
  exact (conj (conj H1 H2)
           (note_message_keeps_its_shape
              sample_trace (core1_setup init_state) sample_trace_final H1 H2)).
Defined.

Lemma uint32_add_idemp a b : uint32 (uint32 a + b) = uint32 (a + b).
Proof. unfold uint32. by rewrite Zplus_mod_idemp_l. Qed.

Lemma step_schedule ev s s' :
  step ev s = Some s' →
  (start_ms s' = start_ms s ∧ stream_writes s' = stream_writes s) ∨
  (start_ms s' = uint32 (start_ms s + interval_ms) ∧
   stream_writes s' = S (stream_writes s)).
Proof.
  destruct ev as [gpio events|miso|a i o rx tx|a inst|a n reads|cfg e];
    cbn [step].
  - intros [= <-]. left. unfold ws_callback. by case_match.
  - intros [= <-]. left. unfold core1_iteration. by case_match.
  - intros [= <-]. left. unfold tuh_midi_mount_cb. by case_match.
  - intros [= <-]. left. unfold tuh_midi_umount_cb. by case_match.
  - intros Hrx. left.
    pose proof (tuh_midi_rx_cb_other (λ s, (start_ms s, midi_calls s))
                  (λ _ _, eq_refl) (λ _ _, eq_refl) _ _ _ _ _ Hrx) as [= H1 H2].
    unfold stream_writes. by rewrite H1, H2.
  - intros [= <-]. unfold main_iteration.
    destruct (send_next_note_cases
                (negb (midi_dev_addr s =? 0) && cfg) e s)
      as [-> | [-> | (_ & Hstart & Hcalls)]]; [by left | by left |].
    right. split; [done|]. unfold stream_writes. by rewrite Hcalls.
Qed.

(** X12.  [start_ms] advances by one interval per call of the stream
    write and by nothing else, so after [n] writes it is [n * 1000]
    (modulo 2^32) however late the main loop came round. *)
Theorem note_schedule_does_not_drift
    (evs : list event) (s s' : state) :
  start_ms s = uint32 (interval_ms * Z.of_nat (stream_writes s)) →
  run evs s = Some s' →
  start_ms s' = uint32 (interval_ms * Z.of_nat (stream_writes s')).
Proof.
  intros Hs Hrun.
  apply (run_preserves
           (λ s1, start_ms s1
                  = uint32 (interval_ms * Z.of_nat (stream_writes s1))))
    with evs s; [|done|done].
  clear. intros ev s1 s2 Hstep Hs1.
  destruct (step_schedule ev s1 s2 Hstep) as [[-> ->]|[-> ->]]; [done|].
  rewrite Hs1, uint32_add_idemp. f_equal. lia.
Qed.

Lemma note_schedule_does_not_drift_witness :
  (start_ms (core1_setup init_state)
   = uint32 (interval_ms
             * Z.of_nat (stream_writes (core1_setup init_state))) ∧
   run sample_trace (core1_setup init_state) = Some sample_trace_final) ∧
  start_ms sample_trace_final
  = uint32 (interval_ms * Z.of_nat (stream_writes sample_trace_final)).
Proof.
  assert (H1 : start_ms (core1_setup init_state)
               = uint32 (interval_ms
                         * Z.of_nat (stream_writes (core1_setup init_state))))
    by (vm_compute; reflexivity).
  assert (H2 : run sample_trace (core1_setup init_state)
               = Some sample_trace_final) by (vm_compute; reflexivity).
  exact (conj (conj H1 H2)
           (note_schedule_does_not_drift
              sample_trace (core1_setup init_state) sample_trace_final H1 H2)).
Defined.

Lemma uint32_elapsed a elapsed :
  0 ≤ elapsed < 2 ^ 32 → uint32 (uint32 (a + elapsed) - a) = elapsed.
Proof.
  intros H. unfold uint32. rewrite Zminus_mod_idemp_l.
  replace (a + elapsed - a) with elapsed by lia. by apply Z.mod_small.
Qed.

(** X13.  The interval test works across the wrap of the 32-bit millisecond
    counter: with [elapsed] milliseconds gone since [start_ms], counted
    modulo 2^32, a connected call only flushes when [elapsed] is below the
    interval, and otherwise writes and moves [start_ms] on by one
    interval. *)
Theorem note_timer_survives_rollover
    (e : note_env) (s : state) (elapsed : Z) :
  0 ≤ elapsed < 2 ^ 32 →
  now_ms e = uint32 (start_ms s + elapsed) →
  1 ≤ tx_cables_guard e →
  (elapsed < interval_ms →
   send_next_note true e s
   = midi_call_made (StreamFlush (midi_dev_addr s)) s) ∧
  (interval_ms ≤ elapsed →
   start_ms (send_next_note true e s) = uint32 (start_ms s + interval_ms) ∧
   stream_writes (send_next_note true e s) = S (stream_writes s)).
Proof.
  intros Hel Hnow Hcables.
  assert (Hdiff : uint32 (now_ms e - start_ms s) = elapsed)
    by (rewrite Hnow; by apply uint32_elapsed).
  split.
  - intros Hlt. unfold send_next_note. cbn [negb orb].
    destruct (Z.ltb_spec (tx_cables_guard e) 1); [lia|].
    cbn [start_ms midi_call_made]. rewrite Hdiff.
    destruct (Z.ltb_spec elapsed interval_ms); [done | lia].
  - intros Hge.
    assert (Hatt : write_attempted true e s)
      by (unfold write_attempted; rewrite Hdiff; done).
    rewrite send_next_note_attempted by done. cbn zeta.
    unfold stream_writes. by case_match.
Qed.

Lemma note_timer_survives_rollover_witness :
  (0 ≤ 1000 < 2 ^ 32 ∧
   now_ms rollover_env = uint32 (start_ms rollover_state + 1000) ∧
   1 ≤ tx_cables_guard rollover_env ∧ interval_ms ≤ 1000) ∧
  start_ms (send_next_note true rollover_env rollover_state)
  = uint32 (start_ms rollover_state + interval_ms) ∧
  stream_writes (send_next_note true rollover_env rollover_state)
  = S (stream_writes rollover_state).
Proof.
  assert (H1 : 0 ≤ 1000 < 2 ^ 32) by lia.
  assert (H2 : now_ms rollover_env = uint32 (start_ms rollover_state + 1000))
    by (vm_compute; reflexivity).
  assert (H3 : 1 ≤ tx_cables_guard rollover_env) by (vm_compute; discriminate).
  assert (H4 : interval_ms ≤ 1000) by (vm_compute; discriminate).
  exact (conj (conj H1 (conj H2 (conj H3 H4)))
           (proj2 (note_timer_survives_rollover
                     rollover_env rollover_state 1000 H1 H2 H3) H4)).
Defined.

(** ** The LED *)

Lemma int64_small x : - 2 ^ 63 ≤ x < 2 ^ 63 → int64 x = x.
Proof. intros H. unfold int64. rewrite Z.mod_small; lia. Qed.

(** A call either leaves everything alone or writes the current level and
    flips it. *)
Lemma blink_led_cases now l :
  blink_led now l = l ∨
  (1000000 < absolute_time_diff_us (previous_timestamp l) now ∧
   blink_led now l = Led now (negb (led_state l)) (led_state l :: led_pin l)).
Proof.
  unfold blink_led. cbn [Z.eqb NO_LED_GPIO LED_GPIO].
  change (NO_LED_GPIO =? LED_GPIO) with false. cbn iota.
  destruct (Z.gtb_spec (absolute_time_diff_us (previous_timestamp l) now)
                       1000000); [right | left]; done.
Qed.

(** A property kept by every single call is kept by a series of calls. *)
Lemma blink_at_preserves (P : Z → Prop) (Q : led → Prop) :
  (∀ now l, P now → Q l → Q (blink_led now l)) →
  ∀ times l, Forall P times → Q l → Q (blink_at times l).
Proof.
  intros Hstep times l Htimes. revert l.
  induction Htimes as [|now rest Hnow _ IH]; intros l HQ; [done|].
  cbn [blink_at foldl]. apply IH. by apply Hstep.
Qed.

Lemma blink_led_alternates now l :
  levels_alternate l → levels_alternate (blink_led now l).
Proof.
  intros [Hstate Hpin].
  destruct (blink_led_cases now l) as [-> | [_ ->]]; [done|].
  unfold levels_alternate. cbn [led_state led_pin length].
  split.
  - rewrite Hstate, Nat.odd_succ. apply Nat.negb_odd.
  - intros i v. rewrite reverse_cons.
    destruct (decide (i < length (reverse (led_pin l)))%nat) as [Hi|Hi].
    + rewrite lookup_app_l by done. apply Hpin.
    + rewrite lookup_app_r by lia.
      rewrite length_reverse in *.
      destruct (i - length (led_pin l))%nat eqn:Hd; [|done].
      intros [= <-]. rewrite Hstate. f_equal. lia.
Qed.

(** X14.  Whenever [blink_led] is called, the levels it writes to the LED
    pin alternate, starting with off, and [led_state] is the level it will
    write next. *)
Theorem led_levels_alternate (times : list Z) :
  led_state (blink_at times led_init)
  = Nat.odd (length (led_pin (blink_at times led_init))) ∧
  ∀ i v,
    reverse (led_pin (blink_at times led_init)) !! i = Some v →
    v = Nat.odd i.
Proof.
  apply (blink_at_preserves (λ _, True) levels_alternate).
  - intros now l _. apply blink_led_alternates.
  - by apply Forall_true.
  - split; [done|]. intros i v.
    change (reverse (led_pin led_init)) with (@nil bool). by rewrite lookup_nil.
Qed.

Lemma led_levels_alternate_witness :
  led_pin (blink_at blink_times led_init) = [false; true; false] ∧
  led_state (blink_at blink_times led_init)
  = Nat.odd (length (led_pin (blink_at blink_times led_init))) ∧
  ∀ i v,
    reverse (led_pin (blink_at blink_times led_init)) !! i = Some v →
    v = Nat.odd i.
Proof.
  assert (H : led_pin (blink_at blink_times led_init) = [false; true; false])
    by (vm_compute; reflexivity).
  exact (conj H (led_levels_alternate blink_times)).
Defined.

Lemma blink_led_rate (T now : Z) (l : led) :
  T < 2 ^ 63 → 0 ≤ now ≤ T →
  0 ≤ previous_timestamp l ≤ T ∧
  1000000 * Z.of_nat (length (led_pin l)) ≤ previous_timestamp l →
  0 ≤ previous_timestamp (blink_led now l) ≤ T ∧
  1000000 * Z.of_nat (length (led_pin (blink_led now l)))
  ≤ previous_timestamp (blink_led now l).
Proof.
  intros HT Hnow [Hprev Hcount].
  destruct (blink_led_cases now l) as [-> | [Hdiff ->]]; [done|].
  unfold absolute_time_diff_us in Hdiff.
  rewrite int64_small in Hdiff by lia.
  cbn [previous_timestamp led_pin length]. lia.
Qed.

(** X15.  Among calls at times up to [T] microseconds (below 2^63) the LED
    pin is written at most [T / 1000000] times: more than a second passes
    before each write. *)
Theorem led_changes_at_most_once_a_second (T : Z) (times : list Z) :
  0 ≤ T < 2 ^ 63 →
  Forall (λ now, 0 ≤ now ≤ T) times →
  1000000 * Z.of_nat (length (led_pin (blink_at times led_init))) ≤ T.
Proof.
  intros HT Htimes.
  assert (Hinv :
    0 ≤ previous_timestamp (blink_at times led_init) ≤ T ∧
    1000000 * Z.of_nat (length (led_pin (blink_at times led_init)))
    ≤ previous_timestamp (blink_at times led_init)).
  { apply (blink_at_preserves (λ now, 0 ≤ now ≤ T)
             (λ l, 0 ≤ previous_timestamp l ≤ T ∧
                   1000000 * Z.of_nat (length (led_pin l))
                   ≤ previous_timestamp l)); [|done|].
    - intros now l Hnow Hl. apply (blink_led_rate T); (done || lia).
    - cbn. lia. }
  lia.
Qed.

Lemma led_changes_at_most_once_a_second_witness :
  (0 ≤ 4000000 < 2 ^ 63 ∧ Forall (λ now, 0 ≤ now ≤ 4000000) blink_times) ∧
  1000000 * Z.of_nat (length (led_pin (blink_at blink_times led_init)))
  ≤ 4000000.
Proof.
  assert (H1 : 0 ≤ 4000000 < 2 ^ 63) by lia.
  assert (H2 : Forall (λ now, 0 ≤ now ≤ 4000000) blink_times) by compute_done.
  exact (conj (conj H1 H2)
           (led_changes_at_most_once_a_second 4000000 blink_times H1 H2)).
Defined.
